(** * Wallet ledger and settlement flows of the Dayly backend

    A shallow embedding of the Cloud Functions in
    [src/Screens/Community/CommunityScreen.tsx] (the server half of that file:
    [fxConvert], [capturePayPalOrder], [getTransactions], [transferFunds],
    [payDriverOnComplete], [payAndPlaceOrder] and the guest capture route).

    - JavaScript numbers are IEEE-754 doubles; they are embedded as Rocq's
      primitive binary64 floats, so every arithmetic step rounds as the
      program's does.
    - Firestore is an explicit [Store] of collections ([gmap]s keyed by
      document id).  A transaction body reads a snapshot of the store and
      queues writes; [runTransaction] commits the queue in one step, or
      nothing at all when the body throws.
    - The network (FX rate providers, the PayPal gateway) is an input: the
      functions take the answers the providers would give. *)

From Stdlib Require Import ZArith Floats Ascii String.
From stdpp Require Import gmap strings list sorting.

Set Warnings "-inexact-float".
Local Open Scope string_scope.
Local Open Scope list_scope.

(** ** JavaScript values *)

Module JS.

(** [isNaN(x)] for a number. *)
Definition isNaN (x : float) : bool := negb (PrimFloat.eqb x x).

(** [!x] for a number: [0], [-0] and [NaN] are falsy. *)
Definition falsy (x : float) : bool := isNaN x || PrimFloat.eqb x 0%float.

(** [x || 0] for a number. *)
Definition or_zero (x : float) : float := if falsy x then 0%float else x.

(** [Number.isFinite(x)]. *)
Definition isFinite (x : float) : bool :=
  PrimFloat.ltb (PrimFloat.abs x) infinity.

Definition is_neg_zero (x : float) : bool :=
  match PrimFloat.classify x with NZero => true | _ => false end.

Definition is_pos_zero (x : float) : bool :=
  match PrimFloat.classify x with PZero => true | _ => false end.

(** [Math.min(a, b)]: [NaN] if either argument is, and [-0] below [+0]. *)
Definition Math_min (a b : float) : float :=
  if PrimFloat.ltb a b then a
  else if PrimFloat.ltb b a then b
  else if isNaN a || isNaN b then nan
  else if is_neg_zero a then a else b.

(** [Math.max(a, b)]: [NaN] if either argument is, and [+0] above [-0]. *)
Definition Math_max (a b : float) : float :=
  if PrimFloat.ltb a b then b
  else if PrimFloat.ltb b a then a
  else if isNaN a || isNaN b then nan
  else if is_pos_zero a then a else b.

(** Doubles of magnitude [2^52] and above are integers already. *)
Definition two52 : float := 4503599627370496%float.

(** [Math.floor(x)]: adding and removing [2^52] rounds to an integer (to
    nearest); one is taken off when that went up. *)
Definition Math_floor (x : float) : float :=
  if PrimFloat.ltb (PrimFloat.abs x) two52 then
    let r := if PrimFloat.ltb x 0%float
             then PrimFloat.add (PrimFloat.sub x two52) two52
             else PrimFloat.sub (PrimFloat.add x two52) two52 in
    if PrimFloat.ltb x r then PrimFloat.sub r 1%float else r
  else x.

(** [Math.round(x)]: the nearest integer, ties towards [+∞]; [NaN], the
    infinities and integers are returned as they are, and a zero result
    of a negative argument is [-0]. *)
Definition Math_round (x : float) : float :=
  if PrimFloat.ltb (PrimFloat.abs x) two52 then
    let f := Math_floor x in
    let r := if PrimFloat.ltb (PrimFloat.sub x f) 0.5%float then f
             else PrimFloat.add f 1%float in
    if PrimFloat.eqb r 0%float && (PrimFloat.ltb x 0%float || is_neg_zero x)
    then (-0)%float else r
  else x.

(** [s.toUpperCase()] on the ASCII range (currency codes, environment
    names). *)
Definition upper_ascii (c : ascii) : ascii :=
  let n := nat_of_ascii c in
  if (97 <=? n)%nat && (n <=? 122)%nat then ascii_of_nat (n - 32) else c.

Fixpoint toUpperCase (s : string) : string :=
  match s with
  | EmptyString => EmptyString
  | String c s' => String (upper_ascii c) (toUpperCase s')
  end.

(** [!s] for a string that may be [undefined]. *)
Definition blank (s : option string) : bool :=
  match s with
  | None => true
  | Some s => String.eqb s ""
  end.

(** [s || d] for a string that may be [undefined]. *)
Definition str_or (s : option string) (d : string) : string :=
  match s with
  | Some s => if String.eqb s "" then d else s
  | None => d
  end.

(** [s || null]. *)
Definition str_or_null (s : option string) : option string :=
  if blank s then None else s.

(** [s.trim()] on ASCII white space. *)
Definition is_space (c : ascii) : bool :=
  let n := nat_of_ascii c in
  (n =? 32)%nat || ((9 <=? n)%nat && (n <=? 13)%nat).

Fixpoint trim_start (s : string) : string :=
  match s with
  | EmptyString => EmptyString
  | String c s' => if is_space c then trim_start s' else s
  end.

Fixpoint trim_end (s : string) : string :=
  match s with
  | EmptyString => EmptyString
  | String c s' =>
      let t := trim_end s' in
      if is_space c && String.eqb t "" then EmptyString else String c t
  end.

Definition trim (s : string) : string := trim_end (trim_start s).

(** The double of a small count ([snaps.size], a [limit]). *)
Definition of_nat (n : nat) : float :=
  PrimFloat.of_uint63 (Uint63.of_Z (Z.of_nat n)).

End JS.

(** ** Errors and results *)

Inductive ErrorCode :=
  | unauthenticated
  | invalid_argument
  | failed_precondition
  | not_found
  | permission_denied
  | internal.

(** What a function throws: an [HttpsError], or any other JavaScript
    exception (a rejected [fetch], a failed validation inside a library). *)
Inductive Exn :=
  | HttpsError (code : ErrorCode) (message : string)
  | JsError (message : string).

Inductive Result (A : Type) :=
  | Ok (a : A)
  | Throw (e : Exn).
Arguments Ok {A} a.
Arguments Throw {A} e.

Definition bind {A B} (r : Result A) (k : A → Result B) : Result B :=
  match r with
  | Ok a => k a
  | Throw e => Throw e
  end.

Declare Scope js_scope.
Delimit Scope js_scope with js.
Notation "'await' x <- e ;; k" := (bind e (fun x => k))
  (at level 10, x name, e at level 99, k at level 200) : js_scope.
Notation "'when' c 'throw' e ;; k" := (if c then Throw e else k)
  (at level 10, c at level 99, e at level 99, k at level 200) : js_scope.

(** ** Configuration ([process.env]) *)

Record Env := {
  APP_BASE_CURRENCY : option string;
  (** [Number(process.env.APP_PLATFORM_FEE_RATE)], when the variable is
      set and not empty. *)
  APP_PLATFORM_FEE_RATE : option float;
  FX_API_KEY : option string;
}.

Definition APP_DEFAULT_CCY : string := "ZAR".

Definition getBaseCurrency (env : Env) : string :=
  JS.toUpperCase (JS.str_or (APP_BASE_CURRENCY env) APP_DEFAULT_CCY).

(** [Number(process.env.APP_PLATFORM_FEE_RATE || "0.20")]. *)
Definition feeRate (env : Env) : float :=
  default 0.20%float (APP_PLATFORM_FEE_RATE env).

(** [req.auth?.uid] of a callable request. *)
Definition uidOrThrow (auth : option string) : Result string :=
  match auth with
  | Some uid =>
      if String.eqb uid "" then Throw (HttpsError unauthenticated "Not signed in.")
      else Ok uid
  | None => Throw (HttpsError unauthenticated "Not signed in.")
  end.

(** ** Firestore documents *)

(** A [Timestamp]: milliseconds on the server clock. *)
Definition Timestamp := Z.

(** [wallets/{uid}] *)
Record WalletDoc := {
  w_uid : option string;
  w_balance : option float;
  w_currency : option string;
  w_updatedAt : option Timestamp;
  w_createdAt : option Timestamp;
}.

Inductive TxType :=
  | TOP_UP
  | TRANSFER_OUT
  | TRANSFER_IN
  | RIDE_PAYMENT
  | RIDE_EARN.

(** [wallets/{uid}/transactions/{id}]: a ledger entry.  The fields an entry
    of some type does not carry are [None]. *)
Record TxDoc := {
  tx_type : TxType;
  tx_status : string;
  tx_createdAt : Timestamp;
  tx_amount : option float;
  tx_currency : option string;
  tx_counterparty : option string;
  tx_note : option string;
  tx_rideId : option string;
  tx_platformFee : option float;
  tx_payoutToDriver : option float;
  tx_provider : option string;
  tx_orderId : option string;
  tx_captureId : option string;
  tx_grossAmount : option float;
  tx_grossCurrency : option string;
  tx_creditAmount : option float;
  tx_creditCurrency : option string;
  tx_source : option string;
}.

(** [rides/{rideId}], the fields the settlement reads and writes. *)
Record RideDoc := {
  r_status : option string;
  r_payment_status : option string;
  r_userId : option string;
  r_driver_id : option string;
  r_estimatedFareZAR : option float;
  r_updatedAt : option Timestamp;
}.

(** [businesses/{businessId}] *)
Record BusinessDoc := {
  b_ownerId : option string;
}.

(** [orders/{orderId}] *)
Record OrderDoc := {
  o_businessId : string;
  o_ownerId : string;
  o_userId : string;
  o_items : list string;
  o_subtotal : float;
  o_total : float;
  o_deliveryAddress : option string;
  o_status : string;
  o_createdAt : Timestamp;
  o_updatedAt : Timestamp;
}.

(** [drivers_live/{driverId}] *)
Record DriverLiveDoc := {
  dl_occupied : option bool;
  dl_updatedAt : option Timestamp;
}.

Record Store := {
  wallets : gmap string WalletDoc;
  transactions : gmap string (gmap string TxDoc);
  rides : gmap string RideDoc;
  businesses : gmap string BusinessDoc;
  orders : gmap string OrderDoc;
  drivers_live : gmap string DriverLiveDoc;
}.

(** [txCollection(uid)]: the ledger of one wallet. *)
Definition txCollection (s : Store) (uid : string) : gmap string TxDoc :=
  default ∅ (transactions s !! uid).

(** [collection.doc(id)] reads its argument as a path: an [id] with a
    slash names a document further down, in a subcollection of another
    document.  The collections of the store are keyed by document ids, the
    ids of one path segment; an id taken from a request or from the gateway
    is one when it has no slash. *)
Fixpoint has_slash (id : string) : bool :=
  match id with
  | EmptyString => false
  | String c rest => Ascii.eqb c "/" || has_slash rest
  end.

(** [collection.doc()]: a document id that is not in the collection (and
    not empty). *)
Definition auto_id {V} (coll : gmap string V) : string :=
  fresh ({[ "" ]} ∪ dom coll).

(** [Number(snap.get("balance") || 0)], or [0] for a snapshot that does not
    exist. *)
Definition snap_balance (snap : option WalletDoc) : float :=
  match snap with
  | Some w =>
      match w_balance w with
      | Some b => JS.or_zero b
      | None => 0%float
      end
  | None => 0%float
  end.

(** [snap.exists ? (snap.get("createdAt") || now) : now] *)
Definition snap_createdAt (snap : option WalletDoc) (now : Timestamp) : Timestamp :=
  match snap with
  | Some w => default now (w_createdAt w)
  | None => now
  end.

(** ** Transactions *)

(** The [balance] of a wallet write: a value, or [FieldValue.increment]. *)
Inductive BalanceField :=
  | BalValue (v : float)
  | BalIncrement (d : float).

(** The object passed to [t.set(walletDoc(uid), data, { merge: true })]. *)
Record WalletData := {
  d_uid : option string;
  d_balance : BalanceField;
  d_currency : string;
  d_updatedAt : Timestamp;
  d_createdAt : option Timestamp;
}.

Inductive Write :=
  | SetWallet (uid : string) (data : WalletData)
  | AddTx (uid : string) (doc : TxDoc)
  | UpdateRide (rideId : string) (status payment_status : string) (updatedAt : Timestamp)
  | SetDriverLive (driverId : string) (occupied : bool) (updatedAt : Timestamp)
  | SetOrder (orderId : string) (doc : OrderDoc).

(** [{ merge: true }]: the fields of [data] replace those of the stored
    document and the others stay; an increment adds to a stored number and
    otherwise sets the field. *)
Definition merge_wallet (old : option WalletDoc) (data : WalletData) : WalletDoc :=
  {| w_uid := match d_uid data with Some u => Some u | None => old ≫= w_uid end;
     w_balance :=
       Some match d_balance data with
            | BalValue v => v
            | BalIncrement d =>
                match old ≫= w_balance with
                | Some b => PrimFloat.add b d
                | None => d
                end
            end;
     w_currency := Some (d_currency data);
     w_updatedAt := Some (d_updatedAt data);
     w_createdAt :=
       match d_createdAt data with Some c => Some c | None => old ≫= w_createdAt end |}.

Definition apply_write (s : Store) (w : Write) : Store :=
  match w with
  | SetWallet uid data =>
      {| wallets := <[uid := merge_wallet (wallets s !! uid) data]> (wallets s);
         transactions := transactions s; rides := rides s;
         businesses := businesses s; orders := orders s;
         drivers_live := drivers_live s |}
  | AddTx uid doc =>
      let coll := txCollection s uid in
      {| wallets := wallets s;
         transactions := <[uid := <[auto_id coll := doc]> coll]> (transactions s);
         rides := rides s; businesses := businesses s; orders := orders s;
         drivers_live := drivers_live s |}
  | UpdateRide rideId status payment_status updatedAt =>
      {| wallets := wallets s; transactions := transactions s;
         rides :=
           match rides s !! rideId with
           | Some r =>
               <[rideId := {| r_status := Some status;
                              r_payment_status := Some payment_status;
                              r_userId := r_userId r;
                              r_driver_id := r_driver_id r;
                              r_estimatedFareZAR := r_estimatedFareZAR r;
                              r_updatedAt := Some updatedAt |}]> (rides s)
           | None => rides s
           end;
         businesses := businesses s; orders := orders s;
         drivers_live := drivers_live s |}
  | SetDriverLive driverId occupied updatedAt =>
      {| wallets := wallets s; transactions := transactions s; rides := rides s;
         businesses := businesses s; orders := orders s;
         drivers_live :=
           <[driverId := {| dl_occupied := Some occupied;
                            dl_updatedAt := Some updatedAt |}]> (drivers_live s) |}
  | SetOrder orderId doc =>
      {| wallets := wallets s; transactions := transactions s; rides := rides s;
         businesses := businesses s; orders := <[orderId := doc]> (orders s);
         drivers_live := drivers_live s |}
  end.

(** The commit: the queued writes, in the order they were queued.  ([t.update]
    of a document that is not there fails the transaction; the one body that
    queues an update has read the ride first, so [apply_write] leaves that
    case alone.) *)
Definition commit (s : Store) (ws : list Write) : Store :=
  foldl apply_write s ws.

(** [db.runTransaction(body)]: the body reads the store as it is and
    returns its queue of writes; a body that throws commits nothing. *)
Definition runTransaction (s : Store) (body : Store → Result (list Write))
  : Result unit * Store :=
  match body s with
  | Ok ws => (Ok tt, commit s ws)
  | Throw e => (Throw e, s)
  end.

(** ** The network *)

(** What [fetch] and the reading of the body give: a rejection, or a
    response with its [ok] flag and, when the body parses, the part of the
    JSON the caller looks at. *)
Inductive Fetched (B : Type) :=
  | FetchFails (message : string)
  | Reply (ok : bool) (json : option B).
Arguments FetchFails {B} message.
Arguments Reply {B} ok json.

Inductive Provider :=
  | ExchangeRateApiV6 (key : string)
  | Frankfurter
  | ExchangeRateHost.

(** One conversion request: the provider and what the URL carries. *)
Record FxCall := {
  fx_provider : Provider;
  fx_from : string;
  fx_to : string;
  fx_amount : float;
}.

(** The rate providers.  The [json] of a reply is the provider's result
    field ([conversion_result], [rates[to]], [result]) when it is there and
    is a number. *)
Definition FxNetwork := FxCall → Fetched float.

(** ** FX conversion (v6, then Frankfurter, then exchangerate.host) *)

(** [tryGet]: a body that does not parse is [json: null], a rejected
    [fetch] is thrown on. *)
Definition tryGet (net : FxNetwork) (call : FxCall) : Result (bool * option float) :=
  match net call with
  | FetchFails m => Throw (JsError m)
  | Reply ok json => Ok (ok, json)
  end.

(** The calls made, in order, and the result. *)
Definition fxConvert (env : Env) (net : FxNetwork) (amount : float) (from to : string)
  : list FxCall * Result float :=
  if String.eqb (JS.toUpperCase from) (JS.toUpperCase to) then ([], Ok amount)
  else
    let _from := JS.toUpperCase from in
    let _to := JS.toUpperCase to in
    let fxKey := JS.trim (JS.str_or (FX_API_KEY env) "") in
    let call p := {| fx_provider := p; fx_from := _from; fx_to := _to;
                     fx_amount := amount |} in
    let v6 := call (ExchangeRateApiV6 fxKey) in
    let first :=
      if String.eqb fxKey "" then ([], None)
      else ([v6],
            match tryGet net v6 with
            | Ok (true, Some v) => Some v
            | _ => None
            end) in
    match first with
    | (calls, Some v) => (calls, Ok v)
    | (calls, None) =>
        match tryGet net (call Frankfurter) with
        | Ok (true, Some v) => (calls ++ [call Frankfurter], Ok v)
        | _ =>
            let calls := calls ++ [call Frankfurter; call ExchangeRateHost] in
            match tryGet net (call ExchangeRateHost) with
            | Throw e => (calls, Throw e)
            | Ok (_, Some v) => (calls, Ok v)
            | Ok (_, None) => (calls, Ok amount)
            end
        end
    end.

(** ** The payment gateway *)

(** [purchase_units[0].payments.captures[0]] of a capture response;
    [c_value] is [Number(amount.value)] when the value is there and not
    empty. *)
Record Capture := {
  c_id : option string;
  c_value : option float;
  c_currency_code : option string;
}.

Record CaptureBody := {
  cb_status : option string;
  cb_custom_id : option string;
  cb_capture : option Capture;
}.

Record Gateway := {
  (** [getPayPalAccessToken()] *)
  gw_token : Result string;
  (** [POST /v2/checkout/orders/{orderId}/capture] with a token *)
  gw_capture : string → string → Fetched CaptureBody;
}.

Definition topUpEntry (orderId : string) (capture : option Capture)
    (gross : float) (grossCurrency : string) (credit : float) (base : string)
    (now : Timestamp) (source : option string) : TxDoc :=
  {| tx_type := TOP_UP; tx_status := "SUCCESS"; tx_createdAt := now;
     tx_amount := None; tx_currency := None; tx_counterparty := None;
     tx_note := None; tx_rideId := None; tx_platformFee := None;
     tx_payoutToDriver := None;
     tx_provider := Some "PAYPAL";
     tx_orderId := Some orderId;
     tx_captureId := JS.str_or_null (capture ≫= c_id);
     tx_grossAmount := Some gross;
     tx_grossCurrency := Some grossCurrency;
     tx_creditAmount := Some credit;
     tx_creditCurrency := Some base;
     tx_source := source |}.

(** The transaction of both capture routes: credit the wallet and log the
    top-up. *)
Definition capture_tx (uid orderId : string) (capture : option Capture)
    (gross : float) (grossCurrency : string) (credit : float) (base : string)
    (now : Timestamp) (source : option string) (s : Store) : Result (list Write) :=
  let wSnap := wallets s !! uid in
  let prev := snap_balance wSnap in
  Ok [ SetWallet uid {| d_uid := Some uid;
                        d_balance := BalValue (PrimFloat.add prev credit);
                        d_currency := base;
                        d_updatedAt := now;
                        d_createdAt := Some (snap_createdAt wSnap now) |};
       AddTx uid (topUpEntry orderId capture gross grossCurrency credit base now source) ].

(** What [capturePayPalOrder] returns ([credited] is the credit rounded for
    display and is left out). *)
Record CaptureResponse := {
  cr_status : string;
  cr_currency : string;
  cr_paypal_id : option string;
  cr_paypal_orderId : string;
}.

Local Open Scope js_scope.

Definition capturePayPalOrder (env : Env) (gw : Gateway) (net : FxNetwork)
    (now : Timestamp) (s : Store) (auth : option string) (orderId : string)
  : Result CaptureResponse * Store :=
  let before_tx :=
    await uid <- uidOrThrow auth ;;
    when String.eqb orderId "" throw HttpsError invalid_argument "orderId required" ;;
    await token <- gw_token gw ;;
    await capBody <-
      match gw_capture gw token orderId with
      | FetchFails m => Throw (JsError m)
      | Reply ok json =>
          if ok && bool_decide (json ≫= cb_status = Some "COMPLETED")
          then Ok json
          else Throw (HttpsError internal "PayPal capture error")
      end ;;
    let capture := capBody ≫= cb_capture in
    when JS.blank (capture ≫= c_currency_code)
      throw HttpsError internal "Missing capture amount" ;;
    match capture ≫= c_value with
    | None => Throw (HttpsError internal "Missing capture amount")
    | Some gross =>
        let grossCurrency := JS.toUpperCase (JS.str_or (capture ≫= c_currency_code) "") in
        let base := getBaseCurrency env in
        await credit <-
          (if String.eqb grossCurrency base then Ok gross
           else (fxConvert env net gross grossCurrency base).2) ;;
        Ok (uid, capture, gross, grossCurrency, base, credit)
    end in
  match before_tx with
  | Throw e => (Throw e, s)
  | Ok (uid, capture, gross, grossCurrency, base, credit) =>
      match runTransaction s
              (capture_tx uid orderId capture gross grossCurrency credit base now None) with
      | (Throw e, s') => (Throw e, s')
      | (Ok _, s') =>
          (Ok {| cr_status := "SUCCESS"; cr_currency := base;
                 cr_paypal_id := capture ≫= c_id;
                 cr_paypal_orderId := orderId |}, s')
      end
  end.

(** The JSON answer of [POST /guest/paypal/capture] with its HTTP status
    ([credited] is left out as above). *)
Inductive GuestResponse :=
  | GuestOk (currency : string)
  | GuestError (http_status : nat).

Definition guestCapture (env : Env) (gw : Gateway) (net : FxNetwork)
    (now : Timestamp) (s : Store) (orderId : string)
  : GuestResponse * Store :=
  if String.eqb orderId "" then (GuestError 400, s)
  else
    match gw_token gw with
    | Throw _ => (GuestError 500, s)
    | Ok token =>
        match gw_capture gw token orderId with
        | FetchFails _ | Reply _ None => (GuestError 500, s)
        | Reply ok (Some capBody) =>
            if negb (ok && bool_decide (cb_status capBody = Some "COMPLETED"))
            then (GuestError 500, s)
            else
              let capture := cb_capture capBody in
              match JS.str_or_null (cb_custom_id capBody) with
              | None => (GuestError 500, s)
              | Some recipientUid =>
                  let gross := default 0%float (capture ≫= c_value) in
                  let grossCurrency :=
                    JS.toUpperCase (JS.str_or (capture ≫= c_currency_code) "USD") in
                  let base := getBaseCurrency env in
                  match (if String.eqb grossCurrency base then Ok gross
                         else (fxConvert env net gross grossCurrency base).2) with
                  | Throw _ => (GuestError 500, s)
                  | Ok credit =>
                      match runTransaction s
                              (capture_tx recipientUid orderId capture gross
                                 grossCurrency credit base now (Some "GUEST")) with
                      | (Throw _, s') => (GuestError 500, s')
                      | (Ok _, s') => (GuestOk base, s')
                      end
                  end
              end
        end
    end.

(** ** Wallet: transactions (paged) *)

(** The order of [orderBy("createdAt", "desc")]: newer entries first, and
    entries of one instant by document id, descending as well. *)
Definition newer_first (a b : string * TxDoc) : Prop :=
  (tx_createdAt b.2 < tx_createdAt a.2)%Z
  ∨ (tx_createdAt a.2 = tx_createdAt b.2 ∧ String.leb b.1 a.1 = true).

Global Instance newer_first_dec a b : Decision (newer_first a b).
Proof. unfold newer_first. apply _. Defined.

Definition orderByCreatedAtDesc (coll : gmap string TxDoc) : list (string * TxDoc) :=
  merge_sort newer_first (map_to_list coll).

(** [q.startAfter(curSnap)]: the documents that follow the cursor's. *)
Fixpoint startAfter (cursor : string) (docs : list (string * TxDoc))
  : list (string * TxDoc) :=
  match docs with
  | [] => []
  | d :: rest => if String.eqb d.1 cursor then rest else startAfter cursor rest
  end.

(** [q.limit(limit)] accepts an integer only. *)
Definition is_integer (x : float) : bool :=
  JS.isFinite x && PrimFloat.eqb (JS.Math_floor x) x.

(** The documents a limited query returns: those whose position [i],
    [i + 1], ... is below the limit. *)
Fixpoint limit_from (limit : float) (i : nat) (docs : list (string * TxDoc))
  : list (string * TxDoc) :=
  match docs with
  | [] => []
  | d :: rest =>
      if PrimFloat.ltb (JS.of_nat i) limit then d :: limit_from limit (S i) rest
      else []
  end.

Record TransactionsPage := {
  items : list (string * TxDoc);
  nextCursor : option string;
}.

(** [Math.max(1, Math.min(50, Number(_limit ?? 20)))] *)
Definition page_limit (_limit : option float) : float :=
  JS.Math_max 1%float (JS.Math_min 50%float (default 20%float _limit)).

Definition getTransactions (s : Store) (auth : option string)
    (_limit : option float) (cursor : option string) : Result TransactionsPage :=
  await uid <- uidOrThrow auth ;;
  let limit := page_limit _limit in
  when negb (is_integer limit)
    throw JsError "Value for argument limit is not a valid integer." ;;
  let q := orderByCreatedAtDesc (txCollection s uid) in
  let q :=
    match JS.str_or_null cursor with
    | Some c =>
        match txCollection s uid !! c with
        | Some _ => startAfter c q
        | None => q
        end
    | None => q
    end in
  let docs := limit_from limit 0 q in
  Ok {| items := docs;
        nextCursor :=
          if PrimFloat.eqb (JS.of_nat (length docs)) limit
          then fst <$> last docs
          else None |}.

(** ** Wallet: peer-to-peer transfer *)

Definition transferEntry (type : TxType) (counterparty : string) (amt : float)
    (base : string) (note : option string) (now : Timestamp) : TxDoc :=
  {| tx_type := type; tx_status := "SUCCESS"; tx_createdAt := now;
     tx_amount := Some amt; tx_currency := Some base;
     tx_counterparty := Some counterparty;
     tx_note := JS.str_or_null note;
     tx_rideId := None; tx_platformFee := None; tx_payoutToDriver := None;
     tx_provider := None; tx_orderId := None; tx_captureId := None;
     tx_grossAmount := None; tx_grossCurrency := None;
     tx_creditAmount := None; tx_creditCurrency := None; tx_source := None |}.

Definition transferFunds_tx (base : string) (now : Timestamp)
    (fromUid toUid : string) (amt : float) (note : option string) (s : Store)
  : Result (list Write) :=
  let fromSnap := wallets s !! fromUid in
  let toSnap := wallets s !! toUid in
  let fromBal := snap_balance fromSnap in
  when PrimFloat.ltb fromBal amt
    throw HttpsError failed_precondition "Insufficient balance" ;;
  Ok [ SetWallet fromUid
         {| d_uid := Some fromUid;
            d_balance := BalValue (PrimFloat.sub fromBal amt);
            d_currency := base; d_updatedAt := now;
            d_createdAt := Some (snap_createdAt fromSnap now) |};
       SetWallet toUid
         {| d_uid := Some toUid;
            d_balance := BalValue (PrimFloat.add (snap_balance toSnap) amt);
            d_currency := base; d_updatedAt := now;
            d_createdAt := Some (snap_createdAt toSnap now) |};
       AddTx fromUid (transferEntry TRANSFER_OUT toUid amt base note now);
       AddTx toUid (transferEntry TRANSFER_IN fromUid amt base note now) ].

(** [req.data] of [transferFunds], with [amount] a number. *)
Record TransferRequest := {
  toUid : string;
  amount : float;
  note : option string;
}.

Definition transferFunds (env : Env) (now : Timestamp) (s : Store)
    (auth : option string) (data : TransferRequest) : Result string * Store :=
  let checked :=
    await fromUid <- uidOrThrow auth ;;
    when String.eqb (toUid data) "" || String.eqb (toUid data) fromUid
      throw HttpsError invalid_argument "Invalid recipient" ;;
    when JS.falsy (amount data) || JS.isNaN (amount data)
         || PrimFloat.leb (amount data) 0%float
      throw HttpsError invalid_argument "amount must be > 0" ;;
    Ok fromUid in
  match checked with
  | Throw e => (Throw e, s)
  | Ok fromUid =>
      match runTransaction s
              (transferFunds_tx (getBaseCurrency env) now fromUid (toUid data)
                 (amount data) (note data)) with
      | (Throw e, s') => (Throw e, s')
      | (Ok _, s') => (Ok "SUCCESS", s')
      end
  end.

(** ** Rides: complete and pay the driver *)

(** [Math.round(amount * Math.max(0, Math.min(0.95, feeRate)))] *)
Definition platformFee (amount feeRate : float) : float :=
  JS.Math_round
    (PrimFloat.mul amount (JS.Math_max 0%float (JS.Math_min 0.95%float feeRate))).

Definition payout (amount feeRate : float) : float :=
  PrimFloat.sub amount (platformFee amount feeRate).

Definition rideEntry (type : TxType) (rideId counterparty : string)
    (amt : float) (base : string) (fee : float) (payoutToDriver : option float)
    (now : Timestamp) : TxDoc :=
  {| tx_type := type; tx_status := "SUCCESS"; tx_createdAt := now;
     tx_amount := Some amt; tx_currency := Some base;
     tx_counterparty := Some counterparty; tx_note := None;
     tx_rideId := Some rideId; tx_platformFee := Some fee;
     tx_payoutToDriver := payoutToDriver;
     tx_provider := None; tx_orderId := None; tx_captureId := None;
     tx_grossAmount := None; tx_grossCurrency := None;
     tx_creditAmount := None; tx_creditCurrency := None; tx_source := None |}.

(** The settlement marker: [payment.status === "authorized"] or
    [status === "completed"]. *)
Definition settled (ride : RideDoc) : bool :=
  bool_decide (r_payment_status ride = Some "authorized")
  || bool_decide (r_status ride = Some "completed").

Definition payDriverOnComplete_tx (env : Env) (now : Timestamp)
    (riderUid rideId : string) (s : Store) : Result (list Write) :=
  match rides s !! rideId with
  | None => Throw (HttpsError not_found "Ride not found")
  | Some ride =>
      if settled ride then Ok []
      else
        when negb (bool_decide (r_userId ride = Some riderUid))
          throw HttpsError permission_denied "Not your ride." ;;
        when negb (bool_decide (r_status ride = Some "on_trip"))
          throw HttpsError failed_precondition "Ride must be on_trip" ;;
        match JS.str_or_null (r_driver_id ride) with
        | None => Throw (HttpsError failed_precondition "No assigned driver.")
        | Some driverId =>
            let amount :=
              match r_estimatedFareZAR ride with
              | Some f => JS.or_zero f
              | None => 0%float
              end in
            when negb (JS.isFinite amount) || PrimFloat.leb amount 0%float
              throw HttpsError failed_precondition "Invalid fare amount." ;;
            let base := getBaseCurrency env in
            let rSnap := wallets s !! riderUid in
            let dSnap := wallets s !! driverId in
            let riderBal := snap_balance rSnap in
            when PrimFloat.ltb riderBal amount
              throw HttpsError failed_precondition "Insufficient rider balance." ;;
            let fee := platformFee amount (feeRate env) in
            let pay := payout amount (feeRate env) in
            Ok [ SetWallet riderUid
                   {| d_uid := None;
                      d_balance := BalValue (PrimFloat.sub riderBal amount);
                      d_currency := base; d_updatedAt := now;
                      d_createdAt := Some (snap_createdAt rSnap now) |};
                 SetWallet driverId
                   {| d_uid := None;
                      d_balance := BalValue (PrimFloat.add (snap_balance dSnap) pay);
                      d_currency := base; d_updatedAt := now;
                      d_createdAt := Some (snap_createdAt dSnap now) |};
                 AddTx riderUid
                   (rideEntry RIDE_PAYMENT rideId driverId amount base fee (Some pay) now);
                 AddTx driverId
                   (rideEntry RIDE_EARN rideId riderUid pay base fee None now);
                 UpdateRide rideId "completed" "authorized" now;
                 SetDriverLive driverId false now ]
        end
  end.

(** [{ ok: true }] or a thrown error. *)
Definition payDriverOnComplete (env : Env) (now : Timestamp) (s : Store)
    (auth : option string) (rideId : string) : Result bool * Store :=
  let checked :=
    await riderUid <- uidOrThrow auth ;;
    when String.eqb rideId "" throw HttpsError invalid_argument "rideId required" ;;
    Ok riderUid in
  match checked with
  | Throw e => (Throw e, s)
  | Ok riderUid =>
      match runTransaction s (payDriverOnComplete_tx env now riderUid rideId) with
      | (Throw e, s') => (Throw e, s')
      | (Ok _, s') => (Ok true, s')
      end
  end.

(** ** Business: pay and place an order *)

(** [req.data] of [payAndPlaceOrder]: [order_items] is [None] when [items]
    is not an array, [total] is [Number(total)]. *)
Record OrderRequest := {
  businessId : string;
  order_items : option (list string);
  address : option string;
  total : float;
}.

Record OrderResponse := {
  or_orderId : string;
  or_status : string;
}.

Definition payAndPlaceOrder_tx (base : string) (now : Timestamp)
    (uid orderId : string) (data : OrderRequest) (s : Store) : Result (list Write) :=
  match businesses s !! businessId data with
  | None => Throw (HttpsError not_found "Business not found.")
  | Some biz =>
      let ownerId := JS.str_or (b_ownerId biz) "" in
      when String.eqb ownerId ""
        throw HttpsError failed_precondition "Business owner not set." ;;
      let buyerSnap := wallets s !! uid in
      let buyerBal := snap_balance buyerSnap in
      let amount := total data in
      when PrimFloat.ltb buyerBal amount
        throw HttpsError failed_precondition "Insufficient funds." ;;
      Ok [ SetWallet uid
             {| d_uid := Some uid;
                d_balance := BalValue (PrimFloat.sub buyerBal amount);
                d_currency := base; d_updatedAt := now; d_createdAt := None |};
           SetWallet ownerId
             {| d_uid := Some ownerId;
                d_balance := BalIncrement amount;
                d_currency := base; d_updatedAt := now; d_createdAt := None |};
           SetOrder orderId
             {| o_businessId := businessId data; o_ownerId := ownerId;
                o_userId := uid; o_items := default [] (order_items data);
                o_subtotal := amount; o_total := amount;
                o_deliveryAddress := JS.str_or_null (address data);
                o_status := "paid"; o_createdAt := now; o_updatedAt := now |} ]
  end.

Definition payAndPlaceOrder (env : Env) (now : Timestamp) (s : Store)
    (auth : option string) (data : OrderRequest) : Result OrderResponse * Store :=
  let checked :=
    await uid <- uidOrThrow auth ;;
    when String.eqb (businessId data) "" || negb (bool_decide (is_Some (order_items data)))
         || negb (JS.isFinite (total data)) || PrimFloat.leb (total data) 0%float
      throw HttpsError invalid_argument "Missing order fields." ;;
    Ok uid in
  match checked with
  | Throw e => (Throw e, s)
  | Ok uid =>
      let orderId := auto_id (orders s) in
      match runTransaction s
              (payAndPlaceOrder_tx (getBaseCurrency env) now uid orderId data) with
      | (Throw e, s') => (Throw e, s')
      | (Ok _, s') => (Ok {| or_orderId := orderId; or_status := "paid" |}, s')
      end
  end.

(** ** Pairing of balance writes and ledger entries *)

(** The wallets whose balance a queue of writes sets, and the wallets it
    adds a ledger entry to, each as many times as it does. *)
Definition balance_writes (ws : list Write) : list string :=
  omap (λ w, match w with SetWallet uid _ => Some uid | _ => None end) ws.

Definition ledger_writes (ws : list Write) : list string :=
  omap (λ w, match w with AddTx uid _ => Some uid | _ => None end) ws.

(** One ledger entry per balance write, wallet by wallet. *)
Definition paired (ws : list Write) : Prop :=
  balance_writes ws ≡ₚ ledger_writes ws.

(** ** Wallet: balance, creating the wallet on first use *)

Record BalanceResponse := {
  br_balance : float;
  br_currency : string;
}.

(** [getWalletBalance]: a wallet that is not there is written with balance
    0 (a plain [set], outside any transaction) and 0 is returned. *)
Definition getWalletBalance (env : Env) (now : Timestamp) (s : Store)
    (auth : option string) : Result BalanceResponse * Store :=
  match uidOrThrow auth with
  | Throw e => (Throw e, s)
  | Ok uid =>
      let base := getBaseCurrency env in
      match wallets s !! uid with
      | None =>
          (Ok {| br_balance := 0; br_currency := base |},
           {| wallets :=
                <[uid := {| w_uid := Some uid; w_balance := Some 0%float;
                            w_currency := Some base; w_updatedAt := Some now;
                            w_createdAt := Some now |}]> (wallets s);
              transactions := transactions s; rides := rides s;
              businesses := businesses s; orders := orders s;
              drivers_live := drivers_live s |})
      | Some w =>
          (Ok {| br_balance := snap_balance (Some w);
                 br_currency := JS.toUpperCase (JS.str_or (w_currency w) base) |},
           s)
      end
  end.

(** ** Push notifications (Expo) *)

Record PushMessage := {
  pm_to : string;
  pm_sound : string;
  pm_title : string;
  pm_body : string;
  pm_data : list (string * string);
}.

(** The push service: what a [POST] of a batch of messages gives
    ([Some m] when the [fetch] rejects with [m]). *)
Definition PushService := list PushMessage → option string.

(** [sendExpoPush(to, title, body, data)], with [to] a list (a single
    token is the list of that token): the batches posted and the result.
    Empty tokens are dropped and nothing is posted for an empty list. *)
Definition sendExpoPush (expo : PushService) (to : list string)
    (title body : string) (data : list (string * string))
  : list (list PushMessage) * Result unit :=
  let list := filter (λ t, t ≠ "") to in
  match list with
  | [] => ([], Ok tt)
  | _ =>
      let batch := (λ t, {| pm_to := t; pm_sound := "default"; pm_title := title;
                            pm_body := body; pm_data := data |}) <$> list in
      ([batch],
       match expo batch with
       | Some m => Throw (JsError m)
       | None => Ok tt
       end)
  end.

(** [users/{uid}]: the fields the notifications read.  An element of
    [expoPushTokens] that is not a string is [None]. *)
Record UserDoc := {
  u_username : option string;
  u_expoPushTokens : option (list (option string));
}.

(** [(snap.get("expoPushTokens") || []).filter(t => typeof t === "string"
    && t.startsWith("ExponentPushToken"))] *)
Definition expoTokens (user : option UserDoc) : list string :=
  omap (λ t, match t with
             | Some tok => if String.prefix "ExponentPushToken" tok then Some tok else None
             | None => None
             end)
       (default [] (user ≫= u_expoPushTokens)).

(** The data of an [orders/{orderId}] document as the update trigger sees
    it. *)
Record OrderSnap := {
  os_status : option string;
  os_userId : option string;
}.

(** [String(x)] of a string that may be [undefined]. *)
Definition string_of (x : option string) : string := default "undefined" x.

(** [notifyBuyerOrderStatus]: the trigger on an update of an order. *)
Definition notifyBuyerOrderStatus (expo : PushService) (users : gmap string UserDoc)
    (orderId : string) (before after : option OrderSnap)
  : list (list PushMessage) * Result unit :=
  match before, after with
  | Some before, Some after =>
      if bool_decide (os_status before = os_status after) then ([], Ok tt)
      else
        match JS.str_or_null (os_userId after) with
        | None => ([], Ok tt)
        | Some userId =>
            let tokens := expoTokens (users !! userId) in
            match tokens with
            | [] => ([], Ok tt)
            | _ =>
                sendExpoPush expo tokens "Order update"
                  ("Your order is now " ++ string_of (os_status after))%string
                  (("orderId", orderId)
                     :: match os_status after with
                        | Some st => [("status", st)]
                        | None => []
                        end)
            end
        end
  | _, _ => ([], Ok tt)
  end.

(** What the trigger sees of an order written by [payAndPlaceOrder]. *)
Definition snap_of_order (o : OrderDoc) : OrderSnap :=
  {| os_status := Some (o_status o); os_userId := Some (o_userId o) |}.

(** ** Direct messages: chat meta and notification *)

(** A [chats/{chatId}/messages/{messageId}] document; a [text] that is not
    a string is [None]. *)
Record MessageDoc := {
  m_senderId : option string;
  m_text : option string;
  m_mediaType : option string;
  m_fileName : option string;
}.

(** [previewFromMessage] *)
Definition previewFromMessage (msg : MessageDoc) : string :=
  let text := JS.trim (default "" (m_text msg)) in
  if negb (String.eqb text "") then String.substring 0 140 text
  else if bool_decide (m_mediaType msg = Some "image") then "Image 📸"
  else if bool_decide (m_mediaType msg = Some "video") then "Video 🎥"
  else if bool_decide (m_mediaType msg = Some "file")
       then ("File 📄" ++ match JS.str_or_null (m_fileName msg) with
                           | Some name => ": " ++ name
                           | None => ""
                           end)%string
  else "New message".

(** The [participants] of a chat: an array (an element that is not a
    string is [None]), or an object whose keys are listed in their order
    with whether the value is [true], or anything else. *)
Inductive Participants :=
  | PArray (members : list (option string))
  | PObject (entries : list (string * bool))
  | POther.

(** [chats/{chatId}] *)
Record ChatDoc := {
  c_participants : Participants;
  c_lastMessageText : option string;
  c_lastMessageSenderId : option string;
  c_lastMessageTimestamp : option Timestamp;
  c_unreadFor : gmap string bool;
}.

Definition participant_ids (p : Participants) : list string :=
  match p with
  | PArray members => omap id members
  | PObject entries => fst <$> filter (λ e, e.2 = true) entries
  | POther => []
  end.

(** [notifyOnNewDM]: the trigger on a new message of a chat.  It gives the
    chats as it leaves them and the batches posted; whatever is thrown
    inside is caught and logged. *)
Definition notifyOnNewDM (expo : PushService) (now : Timestamp)
    (users : gmap string UserDoc) (chats : gmap string ChatDoc)
    (chatId : string) (msg : option MessageDoc)
  : gmap string ChatDoc * list (list PushMessage) :=
  match msg with
  | None => (chats, [])
  | Some msg =>
      let senderId := JS.str_or (m_senderId msg) "" in
      if String.eqb senderId "" then (chats, [])
      else
        match chats !! chatId with
        | None => (chats, [])
        | Some chat =>
            let participants := participant_ids (c_participants chat) in
            if negb (length participants =? 2)%nat then (chats, [])
            else
              match JS.str_or_null (List.find (λ p, negb (String.eqb p senderId)) participants) with
              | None => (chats, [])
              | Some recipientId =>
                  let lastMessageText := previewFromMessage msg in
                  let chats' :=
                    <[chatId :=
                        {| c_participants := c_participants chat;
                           c_lastMessageText := Some lastMessageText;
                           c_lastMessageSenderId := Some senderId;
                           c_lastMessageTimestamp := Some now;
                           c_unreadFor :=
                             <[senderId := false]>
                               (<[recipientId := true]> (c_unreadFor chat)) |}]>
                      chats in
                  let tokens := expoTokens (users !! recipientId) in
                  match tokens with
                  | [] => (chats', [])
                  | _ =>
                      let title :=
                        match JS.str_or_null (users !! senderId ≫= u_username) with
                        | Some name => name
                        | None => "New message"
                        end in
                      (chats',
                       (sendExpoPush expo tokens title lastMessageText
                          [("type", "dm"); ("chatId", chatId);
                           ("recipientId", senderId)]).1)
                  end
              end
        end
  end.

(** ** Guest checkout: create the order *)

Definition PAYPAL_SUPPORTED : list string :=
  ["AUD"; "BRL"; "CAD"; "CNY"; "CZK"; "DKK"; "EUR"; "HKD"; "HUF"; "ILS"; "JPY";
   "MYR"; "MXN"; "TWD"; "NZD"; "NOK"; "PHP"; "PLN"; "GBP"; "SGD"; "SEK"; "CHF";
   "THB"; "USD"].

Definition PAYPAL_FALLBACK_CCY : string := "USD".

(** [x.toFixed(2)], kept as it is written: the decimal string of [x] with
    two digits after the point. *)
Inductive FixedString :=
  | toFixed2 (x : float).

(** The body of [POST /guest/paypal/create], with [amount] a number. *)
Record GuestCreateBody := {
  gc_recipientUid : option string;
  gc_amount : option float;
  gc_currency : option string;
  gc_returnUrl : option string;
  gc_cancelUrl : option string;
  gc_description : option string;
}.

(** The order sent to [POST /v2/checkout/orders]. *)
Record OrderPost := {
  op_currency_code : string;
  op_value : FixedString;
  op_custom_id : string;
  op_description : string;
  op_return_url : option string;
  op_cancel_url : option string;
}.

(** What the gateway answers: the order id and the links with their
    [rel]. *)
Record CreatedOrder := {
  co_id : option string;
  co_links : list (string * string);
}.

Inductive GuestCreateResponse :=
  | GuestCreated (orderId : option string) (approveLinks : list (string * string))
      (orderCurrency : string) (orderAmount : FixedString)
  | GuestCreateError (http_status : nat).

(** The conversion calls made, the orders posted and the answer. *)
Definition guestCreate (env : Env) (token : Result string)
    (create : string → OrderPost → Fetched CreatedOrder) (net : FxNetwork)
    (body : GuestCreateBody)
  : list FxCall * list OrderPost * GuestCreateResponse :=
  match JS.str_or_null (gc_recipientUid body), gc_amount body with
  | Some recipientUid, Some amount =>
      if JS.falsy amount || JS.isNaN amount then ([], [], GuestCreateError 400)
      else
        let inputCurrency :=
          JS.toUpperCase (JS.str_or (gc_currency body) (getBaseCurrency env)) in
        let converted :=
          if bool_decide (inputCurrency ∈ PAYPAL_SUPPORTED)
          then ([], Ok (inputCurrency, amount))
          else
            let fx := fxConvert env net amount inputCurrency PAYPAL_FALLBACK_CCY in
            (fx.1, bind fx.2 (λ v, Ok (PAYPAL_FALLBACK_CCY, v))) in
        match converted with
        | (calls, Throw _) => (calls, [], GuestCreateError 500)
        | (calls, Ok (orderCurrency, orderAmount)) =>
            match token with
            | Throw _ => (calls, [], GuestCreateError 500)
            | Ok tok =>
                let post :=
                  {| op_currency_code := orderCurrency;
                     op_value := toFixed2 orderAmount;
                     op_custom_id := recipientUid;
                     op_description := JS.str_or (gc_description body) "Guest payment";
                     op_return_url := gc_returnUrl body;
                     op_cancel_url := gc_cancelUrl body |} in
                (calls, [post],
                 match create tok post with
                 | Reply true (Some order) =>
                     GuestCreated (co_id order)
                       (filter (λ l, l.1 = "approve") (co_links order))
                       orderCurrency (toFixed2 orderAmount)
                 | _ => GuestCreateError 500
                 end)
            end
        end
  | _, _ => ([], [], GuestCreateError 400)
  end.

(** ** The community list (client) *)

Module Client.

(** Lower case on the ASCII range. *)
Definition lower_ascii (c : ascii) : ascii :=
  let n := nat_of_ascii c in
  if (65 <=? n)%nat && (n <=? 90)%nat then ascii_of_nat (n + 32) else c.

Fixpoint toLowerCase (s : string) : string :=
  match s with
  | EmptyString => EmptyString
  | String c s' => String (lower_ascii c) (toLowerCase s')
  end.

(** [s.includes(sub)] *)
Fixpoint includes (s sub : string) : bool :=
  String.prefix sub s
  || match s with
     | EmptyString => false
     | String _ s' => includes s' sub
     end.

(** [s.split(c)] for a separator of one character. *)
Fixpoint split (c : ascii) (s : string) : list string :=
  match s with
  | EmptyString => [EmptyString]
  | String a s' =>
      if Ascii.eqb a c then EmptyString :: split c s'
      else match split c s' with
           | w :: ws => String a w :: ws
           | [] => [String a EmptyString]
           end
  end.

Record Community := {
  cm_id : string;
  cm_name : string;
  cm_description : option string;
  cm_logo : option string;
  cm_location : option string;
  cm_categories : option (list string);
}.

Definition searchMatch (normalizedQuery : string) (c : Community) : bool :=
  String.eqb normalizedQuery ""
  || includes (toLowerCase (cm_name c)) normalizedQuery
  || match cm_description c with
     | Some d => includes (toLowerCase d) normalizedQuery
     | None => false
     end.

Definition categoryMatch (selectedCategory : option string) (c : Community) : bool :=
  JS.blank selectedCategory
  || match cm_categories c, selectedCategory with
     | Some cs, Some cat => bool_decide (cat ∈ cs)
     | _, _ => false
     end.

(** [c.location?.toLowerCase().includes(normalizedCity)] *)
Definition isLocal (normalizedCity : string) (c : Community) : bool :=
  match cm_location c with
  | Some l => includes (toLowerCase l) normalizedCity
  | None => false
  end.

(** [filteredCommunities]: the communities that match the search text and
    the category, those of the user's city first. *)
Definition filteredCommunities (communities : list Community)
    (searchQuery : string) (selectedCategory userCity : option string)
  : list Community :=
  let normalizedQuery := toLowerCase searchQuery in
  let filtered :=
    List.filter (λ c, searchMatch normalizedQuery c && categoryMatch selectedCategory c)
      communities in
  match JS.str_or_null userCity with
  | Some city =>
      let normalizedCity := toLowerCase city in
      List.filter (isLocal normalizedCity) filtered
      ++ List.filter (λ c, negb (isLocal normalizedCity c)) filtered
  | None => filtered
  end.

(** A name of ASCII characters only.  On such a name the characters of
    this development are JavaScript's, and [toUpperCase] keeps the length
    (it can lengthen other text: it turns [ß] into [SS]). *)
Fixpoint is_ascii (s : string) : bool :=
  match s with
  | EmptyString => true
  | String c s' => (nat_of_ascii c <? 128)%nat && is_ascii s'
  end.

(** The initials shown for a community without a logo, for an ASCII name:
    [name.split(' ').map(w => w[0]).join('').substring(0, 2).toUpperCase()] *)
Definition initials (name : string) : string :=
  JS.toUpperCase
    (String.substring 0 2
       (String.concat ""
          ((λ w, match w with
                 | EmptyString => EmptyString
                 | String a _ => String a EmptyString
                 end) <$> split " " name))).

(** The order of [Array.prototype.sort()] on strings: by character code. *)
Definition code_order (a b : string) : Prop := String.leb a b = true.

Global Instance code_order_dec a b : Decision (code_order a b).
Proof. unfold code_order. apply _. Defined.

(** The category buttons: [Array.from(categoriesSet).sort()] over the
    [categories] of every community document. *)
Definition allCategories (docs : list (list string)) : list string :=
  merge_sort code_order (remove_dups (concat docs)).

(** The edit screen: the categories typed as one text,
    [categories.split(',').map(trim).filter(nonempty).map(toLowerCase)],
    and the text shown for stored categories, [categories.join(', ')]. *)
Definition parseCategories (text : string) : list string :=
  toLowerCase <$> List.filter (λ c, negb (String.eqb c "")) (JS.trim <$> split "," text).

Definition categoriesText (categories : list string) : string :=
  String.concat ", " categories.

End Client.

(** ** Scenarios *)

Module Scenario.

Definition env : Env :=
  {| APP_BASE_CURRENCY := None; APP_PLATFORM_FEE_RATE := None;
     FX_API_KEY := None |}.

Definition empty : Store :=
  {| wallets := ∅; transactions := ∅; rides := ∅; businesses := ∅;
     orders := ∅; drivers_live := ∅ |}.

Definition wallet (uid : string) (balance : float) : WalletDoc :=
  {| w_uid := Some uid; w_balance := Some balance; w_currency := Some "ZAR";
     w_updatedAt := Some 1000%Z; w_createdAt := Some 1000%Z |}.

(** Every provider unreachable. *)
Definition offline : FxNetwork := λ _, FetchFails "fetch failed".

(** A ride of 100 under way, the rider holding 250 and the driver 5. *)
Definition ride (status : string) (payment_status : option string) : RideDoc :=
  {| r_status := Some status; r_payment_status := payment_status;
     r_userId := Some "rider"; r_driver_id := Some "driver";
     r_estimatedFareZAR := Some 100%float; r_updatedAt := None |}.

Definition trip (r : RideDoc) : Store :=
  {| wallets := <["rider" := wallet "rider" 250]> {[ "driver" := wallet "driver" 5 ]};
     transactions := ∅; rides := {[ "ride-1" := r ]}; businesses := ∅;
     orders := ∅; drivers_live := ∅ |}.

(** A shop owned by olivia, and a buyer holding 100. *)
Definition market : Store :=
  {| wallets := {[ "alice" := wallet "alice" 100 ]};
     transactions := ∅; rides := ∅;
     businesses := {[ "shop" := {| b_ownerId := Some "olivia" |} ]};
     orders := ∅; drivers_live := ∅ |}.

Definition basket : OrderRequest :=
  {| businessId := "shop"; order_items := Some ["bread"; "milk"];
     address := Some "12 Long Street"; total := 40 |}.

(** A gateway that answers every capture with the same completed capture
    of 50 ZAR for alice. *)
Definition completed : CaptureBody :=
  {| cb_status := Some "COMPLETED"; cb_custom_id := Some "alice";
     cb_capture := Some {| c_id := Some "CAP-1"; c_value := Some 50%float;
                           c_currency_code := Some "ZAR" |} |}.

Definition paypal : Gateway :=
  {| gw_token := Ok "token"; gw_capture := λ _ _, Reply true (Some completed) |}.

(** A wallet with 25 ledger entries, one per second. *)
Definition busy : Store :=
  commit empty
    ((λ i, AddTx "alice"
             (transferEntry TRANSFER_IN "bob" 1 "ZAR" None (1000 * Z.of_nat i)%Z))
       <$> seq 1 25).

End Scenario.

(** * Properties *)

(** ** Comparisons of doubles *)

Section Doubles.

Implicit Types a b x : float.

Lemma SFcompare_swap (x y : spec_float) :
  SFcompare y x = CompOpp <$> SFcompare x y.
Proof.
  destruct x as [sx|sx| |sx mx ex], y as [sy|sy| |sy my ey]; simpl;
    try destruct sx; try destruct sy; try reflexivity.
  all: rewrite (Z.compare_antisym ex ey);
    destruct (ex ?= ey)%Z; simpl; try reflexivity;
    change (PosDef.Pos.compare_cont Eq mx my) with (Pos.compare mx my);
    change (PosDef.Pos.compare_cont Eq my mx) with (Pos.compare my mx);
    rewrite (Pos.compare_antisym mx my);
    by destruct (mx ?= my)%positive.
Qed.

Lemma SFcompare_Lt_swap (x y : spec_float) :
  SFcompare x y = Some Lt → SFcompare y x = Some Gt.
Proof. intros E. by rewrite SFcompare_swap, E. Qed.

(** Below or equal: the comparison says [Lt] or [Eq]. *)
Definition not_above (c : option comparison) : Prop := c = Some Lt ∨ c = Some Eq.



Lemma SFcompare_refl (x : spec_float) :
  x ≠ S754_nan → SFcompare x x = Some Eq.
Proof.
  destruct x as [s|s| |s m e]; simpl; try destruct s; try congruence.
  all: intros _; rewrite Z.compare_refl;
    change (PosDef.Pos.compare_cont Eq m m) with (m ?= m)%positive;
    by rewrite Pos.compare_refl.
Qed.

Lemma ltb_Lt a b :
  PrimFloat.ltb a b = true ↔ SFcompare (Prim2SF a) (Prim2SF b) = Some Lt.
Proof.
  rewrite FloatAxioms.ltb_spec. unfold SFltb.
  destruct (SFcompare (Prim2SF a) (Prim2SF b)) as [[]|]; naive_solver.
Qed.

Lemma ltb_asym a b : PrimFloat.ltb a b = true → PrimFloat.ltb b a = false.
Proof.
  intros E%ltb_Lt%SFcompare_Lt_swap.
  rewrite FloatAxioms.ltb_spec. unfold SFltb. by rewrite E.
Qed.

Lemma ltb_irrefl a : PrimFloat.ltb a a = false.
Proof.
  destruct (PrimFloat.ltb a a) eqn:E; [|done].
  by rewrite (ltb_asym _ _ E) in E.
Qed.



(** A number above another is a number, is not equal to it and is not
    below or equal to it. *)
Lemma ltb_not_nan a b : PrimFloat.ltb a b = true → JS.isNaN b = false.
Proof.
  intros E%ltb_Lt. unfold JS.isNaN.
  rewrite FloatAxioms.eqb_spec. unfold SFeqb. rewrite SFcompare_refl; [done|].
  intros N. rewrite N in E. by destruct (Prim2SF a) as [[]|[]| |[]].
Qed.

Lemma ltb_not_eqb a b : PrimFloat.ltb a b = true → PrimFloat.eqb b a = false.
Proof.
  intros E%ltb_Lt%SFcompare_Lt_swap.
  rewrite FloatAxioms.eqb_spec. unfold SFeqb. by rewrite E.
Qed.

Lemma ltb_not_leb a b : PrimFloat.ltb a b = true → PrimFloat.leb b a = false.
Proof.
  intros E%ltb_Lt%SFcompare_Lt_swap.
  rewrite FloatAxioms.leb_spec. unfold SFleb. by rewrite E.
Qed.

Lemma leb_not_above a b :
  PrimFloat.leb a b = true ↔ not_above (SFcompare (Prim2SF a) (Prim2SF b)).
Proof.
  rewrite FloatAxioms.leb_spec. unfold SFleb, not_above.
  destruct (SFcompare (Prim2SF a) (Prim2SF b)) as [[]|];
    (split; [auto; discriminate | intros [?|?]; congruence]).
Qed.

Lemma ltb_leb a b : PrimFloat.ltb a b = true → PrimFloat.leb a b = true.
Proof. intros E%ltb_Lt. apply leb_not_above. by left. Qed.










(** A positive amount passes the [amount must be > 0] validation. *)
Lemma positive_amount_valid a :
  PrimFloat.ltb 0 a = true →
  JS.falsy a || JS.isNaN a || PrimFloat.leb a 0 = false.
Proof.
  intros H. unfold JS.falsy.
  by rewrite (ltb_not_nan _ _ H), (ltb_not_eqb _ _ H), (ltb_not_leb _ _ H).
Qed.

Lemma positive_or_zero a : PrimFloat.ltb 0 a = true → JS.or_zero a = a.
Proof.
  intros H. unfold JS.or_zero, JS.falsy.
  by rewrite (ltb_not_nan _ _ H), (ltb_not_eqb _ _ H).
Qed.

End Doubles.

(** ** Strings *)

Lemma eqb_false (a b : string) : a ≠ b → String.eqb a b = false.
Proof. by intros H; apply String.eqb_neq. Qed.

Lemma str_or_null_Some (a : string) : a ≠ "" → JS.str_or_null (Some a) = Some a.
Proof. intros H. unfold JS.str_or_null, JS.blank. by rewrite eqb_false. Qed.

Lemma uidOrThrow_Some (uid : string) : uid ≠ "" → uidOrThrow (Some uid) = Ok uid.
Proof. intros H. unfold uidOrThrow. by rewrite eqb_false. Qed.

(** ** Currency conversion *)

Section Conversion.

Variables (env : Env) (net : FxNetwork).

(** C8. Converting an amount from a currency to that same currency gives
    the amount back unchanged, and no provider is called. *)
Theorem fxConvert_same_currency (amount : float) (X : string) :
  fxConvert env net amount X X = ([], Ok amount).
Proof. unfold fxConvert. by rewrite String.eqb_refl. Qed.

(** The same holds for codes that differ in letter case only. *)
Lemma fxConvert_same_code (amount : float) (from to : string) :
  JS.toUpperCase from = JS.toUpperCase to →
  fxConvert env net amount from to = ([], Ok amount).
Proof. intros E. unfold fxConvert. by rewrite E, String.eqb_refl. Qed.

(** What each provider's reply is taken for: the first two count only with
    an [ok] status, the last one with any status. *)
Definition accepted (call : FxCall) : option float :=
  match net call with
  | Reply true (Some v) => Some v
  | _ => None
  end.

Definition accepted_any_status (call : FxCall) : option float :=
  match net call with
  | Reply _ (Some v) => Some v
  | _ => None
  end.

(** X13. The chain, as long as the last provider's [fetch] does not reject:
    the result is the first accepted one in the order v6 (asked only with
    an API key), Frankfurter, exchangerate.host, and the amount itself when
    there is none.  The first two are accepted with an [ok] status only, the
    last with any status. *)
Lemma fxConvert_chain (amount : float) (from to : string) :
  JS.toUpperCase from ≠ JS.toUpperCase to →
  let call p := {| fx_provider := p; fx_from := JS.toUpperCase from;
                   fx_to := JS.toUpperCase to; fx_amount := amount |} in
  let key := JS.trim (JS.str_or (FX_API_KEY env) "") in
  (∀ m, net (call ExchangeRateHost) ≠ FetchFails m) →
  (fxConvert env net amount from to).2 =
    Ok (default amount
          ((if String.eqb key "" then None else accepted (call (ExchangeRateApiV6 key)))
           ∪ accepted (call Frankfurter)
           ∪ accepted_any_status (call ExchangeRateHost))).
Proof.
  intros Hne call key Hhost. subst call key.
  unfold fxConvert, accepted, accepted_any_status, tryGet.
  rewrite (eqb_false _ _ Hne). cbv zeta.
  destruct (String.eqb _ ""); simpl;
    repeat (match goal with
            | |- context [net ?c] => destruct (net c) as [?|[] []] eqn:?
            end; simpl; try done);
    by edestruct Hhost.
Qed.

(** When the first two give nothing and the last provider's [fetch]
    rejects, the rejection is thrown on to the caller. *)
Lemma fxConvert_last_rejects (amount : float) (from to m : string) :
  JS.toUpperCase from ≠ JS.toUpperCase to →
  let call p := {| fx_provider := p; fx_from := JS.toUpperCase from;
                   fx_to := JS.toUpperCase to; fx_amount := amount |} in
  let key := JS.trim (JS.str_or (FX_API_KEY env) "") in
  (key = "" ∨ accepted (call (ExchangeRateApiV6 key)) = None) →
  accepted (call Frankfurter) = None →
  net (call ExchangeRateHost) = FetchFails m →
  (fxConvert env net amount from to).2 = Throw (JsError m).
Proof.
  intros Hne call key H1 H2 H3. subst call key.
  unfold fxConvert, accepted, tryGet in *.
  rewrite (eqb_false _ _ Hne). cbv zeta. rewrite H3.
  destruct H1 as [H1|H1]; [rewrite H1|];
    repeat case_match; simplify_eq/=; done.
Qed.

(** The last provider's reply is not asked for its [ok] status: when the
    first two give nothing, a number in an error response of the last one
    is the result. *)
Lemma fxConvert_last_error_status (amount v : float) (from to : string) :
  JS.toUpperCase from ≠ JS.toUpperCase to →
  let call p := {| fx_provider := p; fx_from := JS.toUpperCase from;
                   fx_to := JS.toUpperCase to; fx_amount := amount |} in
  let key := JS.trim (JS.str_or (FX_API_KEY env) "") in
  (key = "" ∨ accepted (call (ExchangeRateApiV6 key)) = None) →
  accepted (call Frankfurter) = None →
  net (call ExchangeRateHost) = Reply false (Some v) →
  (fxConvert env net amount from to).2 = Ok v.
Proof.
  intros Hne call key H1 H2 H3. subst call key.
  unfold fxConvert, accepted, tryGet in *.
  rewrite (eqb_false _ _ Hne). cbv zeta. rewrite H3.
  destruct H1 as [H1|H1]; [rewrite H1|];
    repeat case_match; simplify_eq/=; done.
Qed.

End Conversion.

(** C7. With no API key and every provider unreachable, converting 50 from
    ZAR to USD asks Frankfurter, then exchangerate.host, and ends with the
    rejection of the last [fetch] thrown to the caller: the amount is not
    returned. *)
Theorem fxConvert_offline_throws :
  fxConvert Scenario.env Scenario.offline 50 "ZAR" "USD"
  = ([ {| fx_provider := Frankfurter; fx_from := "ZAR"; fx_to := "USD";
          fx_amount := 50 |};
       {| fx_provider := ExchangeRateHost; fx_from := "ZAR"; fx_to := "USD";
          fx_amount := 50 |} ],
     Throw (JsError "fetch failed")).
Proof. reflexivity. Qed.


(** ** The store *)

Lemma auto_id_fresh {V} (coll : gmap string V) : coll !! auto_id coll = None.
Proof.
  apply not_elem_of_dom. unfold auto_id.
  pose proof (is_fresh ({[ "" ]} ∪ dom coll)). set_solver.
Qed.

Lemma auto_id_not_empty {V} (coll : gmap string V) : auto_id coll ≠ "".
Proof.
  unfold auto_id. pose proof (is_fresh ({[ "" ]} ∪ dom coll)). set_solver.
Qed.

(** What one write does to the wallets and to the ledgers. *)

Lemma commit_cons s w ws : commit s (w :: ws) = commit (apply_write s w) ws.
Proof. done. Qed.

Lemma commit_nil s : commit s [] = s.
Proof. done. Qed.

Lemma wallets_SetWallet s uid data :
  wallets (apply_write s (SetWallet uid data))
  = <[uid := merge_wallet (wallets s !! uid) data]> (wallets s).
Proof. done. Qed.

Lemma wallets_other_write s w :
  (∀ uid data, w ≠ SetWallet uid data) → wallets (apply_write s w) = wallets s.
Proof. by destruct w; intros H; [edestruct H| | | |]. Qed.

Lemma wallets_AddTx s uid doc : wallets (apply_write s (AddTx uid doc)) = wallets s.
Proof. done. Qed.

Lemma txCollection_AddTx s uid doc u :
  txCollection (apply_write s (AddTx uid doc)) u
  = if decide (uid = u)
    then <[auto_id (txCollection s uid) := doc]> (txCollection s uid)
    else txCollection s u.
Proof.
  unfold txCollection at 1. simpl. case_decide as E.
  - by rewrite E, lookup_insert_eq.
  - by rewrite lookup_insert_ne.
Qed.

Lemma txCollection_other_write s w u :
  (∀ uid doc, w ≠ AddTx uid doc) →
  txCollection (apply_write s w) u = txCollection s u.
Proof. by destruct w; intros H; [|edestruct H| | |]. Qed.

Lemma txCollection_SetWallet s uid data u :
  txCollection (apply_write s (SetWallet uid data)) u = txCollection s u.
Proof. done. Qed.

Lemma balance_merge_value old uid v c t cr :
  w_balance (merge_wallet old {| d_uid := uid; d_balance := BalValue v;
                                 d_currency := c; d_updatedAt := t;
                                 d_createdAt := cr |}) = Some v.
Proof. done. Qed.

Lemma wallets_UpdateRide s rideId st pay t :
  wallets (apply_write s (UpdateRide rideId st pay t)) = wallets s.
Proof. done. Qed.

Lemma wallets_SetDriverLive s driverId occ t :
  wallets (apply_write s (SetDriverLive driverId occ t)) = wallets s.
Proof. done. Qed.

Lemma wallets_SetOrder s orderId doc :
  wallets (apply_write s (SetOrder orderId doc)) = wallets s.
Proof. done. Qed.

Lemma txCollection_UpdateRide s rideId st pay t u :
  txCollection (apply_write s (UpdateRide rideId st pay t)) u = txCollection s u.
Proof. done. Qed.

Lemma txCollection_SetDriverLive s driverId occ t u :
  txCollection (apply_write s (SetDriverLive driverId occ t)) u = txCollection s u.
Proof. done. Qed.

Lemma txCollection_SetOrder s orderId doc u :
  txCollection (apply_write s (SetOrder orderId doc)) u = txCollection s u.
Proof. done. Qed.

Lemma rides_other_write s w :
  (∀ rideId st pay t, w ≠ UpdateRide rideId st pay t) →
  rides (apply_write s w) = rides s.
Proof. by destruct w; intros H; [| |edestruct H| |]. Qed.

Create Rewrite HintDb store.
#[local] Hint Rewrite commit_cons commit_nil wallets_SetWallet wallets_AddTx
  wallets_UpdateRide wallets_SetDriverLive wallets_SetOrder
  txCollection_AddTx txCollection_SetWallet txCollection_UpdateRide
  txCollection_SetDriverLive txCollection_SetOrder : store.

(** ** Peer-to-peer transfer *)

Section Transfer.

Variables (env : Env) (now : Timestamp) (s : Store).
Variables (fromUid : string) (data : TransferRequest).

Hypothesis signed_in : fromUid ≠ "".
Hypothesis recipient_given : toUid data ≠ "".
Hypothesis recipient_other : toUid data ≠ fromUid.
Hypothesis amount_positive : PrimFloat.ltb 0 (amount data) = true.

Let fromBal := snap_balance (wallets s !! fromUid).
Let toBal := snap_balance (wallets s !! toUid data).
Let base := getBaseCurrency env.

Lemma transferFunds_checked :
  transferFunds env now s (Some fromUid) data =
    match runTransaction s
            (transferFunds_tx base now fromUid (toUid data) (amount data) (note data)) with
    | (Throw e, s') => (Throw e, s')
    | (Ok _, s') => (Ok "SUCCESS", s')
    end.
Proof.
  unfold transferFunds. rewrite uidOrThrow_Some by done. simpl.
  rewrite (eqb_false (toUid data) "") by done.
  rewrite (eqb_false (toUid data) fromUid) by done. simpl.
  by rewrite positive_amount_valid.
Qed.

(** A transfer the sender can afford: what the committed store holds. *)
Lemma transferFunds_commits :
  PrimFloat.ltb fromBal (amount data) = false →
  ∃ s',
    transferFunds env now s (Some fromUid) data = (Ok "SUCCESS", s')
    ∧ s' = commit s [ SetWallet fromUid
                        {| d_uid := Some fromUid;
                           d_balance := BalValue (PrimFloat.sub fromBal (amount data));
                           d_currency := base; d_updatedAt := now;
                           d_createdAt := Some (snap_createdAt (wallets s !! fromUid) now) |};
                      SetWallet (toUid data)
                        {| d_uid := Some (toUid data);
                           d_balance := BalValue (PrimFloat.add toBal (amount data));
                           d_currency := base; d_updatedAt := now;
                           d_createdAt := Some (snap_createdAt (wallets s !! toUid data) now) |};
                      AddTx fromUid
                        (transferEntry TRANSFER_OUT (toUid data) (amount data) base (note data) now);
                      AddTx (toUid data)
                        (transferEntry TRANSFER_IN fromUid (amount data) base (note data) now) ]
    ∧ (wallets s' !! fromUid) ≫= w_balance = Some (PrimFloat.sub fromBal (amount data))
    ∧ (wallets s' !! toUid data) ≫= w_balance = Some (PrimFloat.add toBal (amount data))
    ∧ txCollection s' fromUid =
        <[auto_id (txCollection s fromUid) :=
            transferEntry TRANSFER_OUT (toUid data) (amount data) base (note data) now]>
          (txCollection s fromUid)
    ∧ txCollection s' (toUid data) =
        <[auto_id (txCollection s (toUid data)) :=
            transferEntry TRANSFER_IN fromUid (amount data) base (note data) now]>
          (txCollection s (toUid data))
    ∧ (∀ u, u ≠ fromUid → u ≠ toUid data →
         wallets s' !! u = wallets s !! u ∧ txCollection s' u = txCollection s u).
Proof.
  intros Hbal. eexists. split.
  { rewrite transferFunds_checked. unfold runTransaction, transferFunds_tx.
    fold fromBal. rewrite Hbal. reflexivity. }
  fold toBal. split; [done|].
  repeat split; intros; autorewrite with store; repeat case_decide; simplify_eq;
    repeat first [rewrite lookup_insert_eq | rewrite lookup_insert_ne by done];
    try done.
Qed.

End Transfer.

(** Whatever the request, a transfer that ends in an error has committed
    nothing. *)
Lemma transferFunds_error_no_mutation env now s auth data e s' :
  transferFunds env now s auth data = (Throw e, s') → s' = s.
Proof.
  unfold transferFunds, runTransaction. intros H.
  repeat case_match; simplify_eq; done.
Qed.

(** C2. A signed-in sender asks to transfer a positive amount to another
    user, and the balance read inside the transaction is below the amount:
    the call fails with [failed-precondition] (insufficient balance) and the
    store is left as it was, so neither balance changes and no ledger entry
    is written. *)
Theorem transferFunds_insufficient env now s fromUid data :
  fromUid ≠ "" → toUid data ≠ "" → toUid data ≠ fromUid →
  PrimFloat.ltb 0 (amount data) = true →
  PrimFloat.ltb (snap_balance (wallets s !! fromUid)) (amount data) = true →
  transferFunds env now s (Some fromUid) data
  = (Throw (HttpsError failed_precondition "Insufficient balance"), s).
Proof.
  intros ???? Hlow. rewrite transferFunds_checked by done.
  unfold runTransaction, transferFunds_tx. by rewrite Hlow.
Qed.

Lemma transferFunds_insufficient_witness :
  let s := {| wallets := {[ "alice" := Scenario.wallet "alice" 10 ]};
              transactions := ∅; rides := ∅; businesses := ∅; orders := ∅;
              drivers_live := ∅ |} in
  transferFunds Scenario.env 2000%Z s (Some "alice")
    {| toUid := "bob"; amount := 40; note := None |}
  = (Throw (HttpsError failed_precondition "Insufficient balance"), s).
Proof.
  apply transferFunds_insufficient; [done | done | done | reflexivity | reflexivity].
Defined.



(** ** Ride settlement *)

Section Ride.

Variables (env : Env) (now : Timestamp) (s : Store).
Variables (caller rideId : string) (ride : RideDoc).

Hypothesis signed_in : caller ≠ "".
Hypothesis ride_given : rideId ≠ "".
Hypothesis ride_found : rides s !! rideId = Some ride.

Lemma payDriverOnComplete_checked :
  payDriverOnComplete env now s (Some caller) rideId =
    match runTransaction s (payDriverOnComplete_tx env now caller rideId) with
    | (Throw e, s') => (Throw e, s')
    | (Ok _, s') => (Ok true, s')
    end.
Proof.
  unfold payDriverOnComplete. rewrite uidOrThrow_Some by done. simpl.
  by rewrite (eqb_false rideId "").
Qed.

(** A ride that carries the settlement marker: success, nothing queued. *)
Lemma payDriverOnComplete_settled :
  settled ride = true →
  payDriverOnComplete env now s (Some caller) rideId = (Ok true, s).
Proof.
  intros Hset. rewrite payDriverOnComplete_checked.
  unfold runTransaction, payDriverOnComplete_tx. by rewrite ride_found, Hset.
Qed.

(** Someone else's ride that is not settled yet is refused. *)
Lemma payDriverOnComplete_not_owner :
  settled ride = false → r_userId ride ≠ Some caller →
  payDriverOnComplete env now s (Some caller) rideId
  = (Throw (HttpsError permission_denied "Not your ride."), s).
Proof.
  intros Hset Hown. rewrite payDriverOnComplete_checked.
  unfold runTransaction, payDriverOnComplete_tx. rewrite ride_found, Hset.
  by rewrite bool_decide_eq_false_2.
Qed.

Variables (driverId : string) (fare : float).

Hypothesis not_authorized : r_payment_status ride ≠ Some "authorized".
Hypothesis on_trip : r_status ride = Some "on_trip".
Hypothesis own_ride : r_userId ride = Some caller.
Hypothesis driver_assigned : r_driver_id ride = Some driverId.
Hypothesis driver_named : driverId ≠ "".
Hypothesis fare_given : r_estimatedFareZAR ride = Some fare.
Hypothesis fare_finite : JS.isFinite fare = true.
Hypothesis fare_positive : PrimFloat.ltb 0 fare = true.

Let riderBal := snap_balance (wallets s !! caller).
Let driverBal := snap_balance (wallets s !! driverId).
Let base := getBaseCurrency env.
Let fee := platformFee fare (feeRate env).
Let pay := payout fare (feeRate env).

Definition settlement_writes : list Write :=
  [ SetWallet caller
      {| d_uid := None;
         d_balance := BalValue (PrimFloat.sub riderBal fare);
         d_currency := base; d_updatedAt := now;
         d_createdAt := Some (snap_createdAt (wallets s !! caller) now) |};
    SetWallet driverId
      {| d_uid := None;
         d_balance := BalValue (PrimFloat.add driverBal pay);
         d_currency := base; d_updatedAt := now;
         d_createdAt := Some (snap_createdAt (wallets s !! driverId) now) |};
    AddTx caller (rideEntry RIDE_PAYMENT rideId driverId fare base fee (Some pay) now);
    AddTx driverId (rideEntry RIDE_EARN rideId caller pay base fee None now);
    UpdateRide rideId "completed" "authorized" now;
    SetDriverLive driverId false now ].

Lemma not_settled : settled ride = false.
Proof.
  unfold settled. rewrite on_trip.
  by rewrite bool_decide_eq_false_2.
Qed.

(** The rider can pay the fare: the queue of writes of the settlement. *)
Lemma payDriverOnComplete_tx_settles :
  PrimFloat.ltb riderBal fare = false →
  payDriverOnComplete_tx env now caller rideId s = Ok settlement_writes.
Proof.
  intros Hbal. unfold payDriverOnComplete_tx.
  rewrite ride_found, not_settled, own_ride, on_trip, driver_assigned, fare_given.
  rewrite !bool_decide_eq_true_2 by done. simpl.
  rewrite str_or_null_Some by done.
  rewrite positive_or_zero by done.
  rewrite fare_finite, (ltb_not_leb _ _ fare_positive). simpl.
  fold riderBal. by rewrite Hbal.
Qed.

Lemma payDriverOnComplete_commits :
  PrimFloat.ltb riderBal fare = false →
  payDriverOnComplete env now s (Some caller) rideId
  = (Ok true, commit s settlement_writes).
Proof.
  intros Hbal. rewrite payDriverOnComplete_checked. unfold runTransaction.
  by rewrite payDriverOnComplete_tx_settles.
Qed.

(** The ride carries the marker once the settlement is committed. *)
Lemma settlement_marks_ride :
  ∃ ride', rides (commit s settlement_writes) !! rideId = Some ride'
           ∧ settled ride' = true.
Proof.
  unfold settlement_writes, commit. simpl. rewrite ride_found.
  eexists. rewrite lookup_insert_eq. split; [done|]. done.
Qed.


End Ride.

(** Whatever the transaction body queues, the ride carries the settlement
    marker after the commit. *)
Lemma payDriverOnComplete_tx_marks env now caller rideId s ws :
  payDriverOnComplete_tx env now caller rideId s = Ok ws →
  ∃ ride', rides (commit s ws) !! rideId = Some ride' ∧ settled ride' = true.
Proof.
  unfold payDriverOnComplete_tx. intros H.
  destruct (rides s !! rideId) as [ride|] eqn:Hride; [|done].
  destruct (settled ride) eqn:Hset.
  - simplify_eq. by exists ride.
  - repeat case_match; simplify_eq.
    unfold commit. simpl. rewrite Hride, lookup_insert_eq. by eexists.
Qed.

(** Whatever the request, a settlement that ends in an error has committed
    nothing. *)
Lemma payDriverOnComplete_error_no_mutation env now s auth rideId e s' :
  payDriverOnComplete env now s auth rideId = (Throw e, s') → s' = s.
Proof.
  unfold payDriverOnComplete, runTransaction. intros H.
  repeat case_match; simplify_eq; done.
Qed.

(** ** Numbers and the clamp *)


Lemma not_a_number (a : float) : JS.isNaN a = true → a = nan.
Proof.
  unfold JS.isNaN. intros H. apply negb_true_iff in H.
  apply Prim2SF_inj. change (Prim2SF nan) with S754_nan.
  rewrite FloatAxioms.eqb_spec in H. unfold SFeqb in H.
  destruct (Prim2SF a) as [sg|sg| |sg m e] eqn:E; [| |reflexivity|];
    by rewrite SFcompare_refl in H.
Qed.





(** A rate that is not a number is not clamped: the fee is not a number
    either. *)
Lemma platformFee_rate_not_a_number (fare rate : float) :
  JS.isNaN rate = true →
  JS.Math_max 0 (JS.Math_min 0.95 rate) = nan ∧ platformFee fare rate = nan.
Proof.
  intros ->%not_a_number. split; [reflexivity|].
  unfold platformFee. change (JS.Math_max 0 (JS.Math_min 0.95 nan)) with nan.
  assert (PrimFloat.mul fare nan = nan) as ->; [|reflexivity].
  apply Prim2SF_inj. rewrite FloatAxioms.mul_spec.
  change (Prim2SF nan) with S754_nan.
  by destruct (Prim2SF fare) as [[]|[]| |[]].
Qed.









(** The product is rounded as the double it is: 50 at 29 percent is just
    below 14.5 in doubles, and the fee is 14. *)
Lemma platformFee_below_half : platformFee 50 0.29 = 14%float.
Proof. reflexivity. Qed.



(** C6. Once a settlement call has returned success for a ride, a second
    call for it (at any later time, under any configuration) returns
    success again and leaves the store exactly as the first call left it: no
    balance moves and no second pair of ledger entries is written. *)
Theorem payDriverOnComplete_twice env now s auth rideId s1 env' now' :
  payDriverOnComplete env now s auth rideId = (Ok true, s1) →
  payDriverOnComplete env' now' s1 auth rideId = (Ok true, s1).
Proof.
  unfold payDriverOnComplete at 1. unfold uidOrThrow, runTransaction.
  destruct auth as [caller|]; [|done].
  destruct (String.eqb caller "") eqn:Hc; [done|]. simpl.
  destruct (String.eqb rideId "") eqn:Hr; [done|].
  apply String.eqb_neq in Hc, Hr.
  destruct (payDriverOnComplete_tx env now caller rideId s) as [ws|] eqn:Htx;
    [|done].
  intros [= <-].
  destruct (payDriverOnComplete_tx_marks _ _ _ _ _ _ Htx) as (ride' & Hride & Hset).
  by eapply payDriverOnComplete_settled.
Qed.

Lemma payDriverOnComplete_twice_witness :
  let s := Scenario.trip (Scenario.ride "on_trip" None) in
  let s1 := (payDriverOnComplete Scenario.env 2000%Z s (Some "rider") "ride-1").2 in
  (wallets s1 !! "rider") ≫= w_balance = Some 150%float
  ∧ size (txCollection s1 "rider") = 1
  ∧ payDriverOnComplete Scenario.env 3000%Z s1 (Some "rider") "ride-1" = (Ok true, s1).
Proof.
  intros s s1. split; [reflexivity|]. split; [reflexivity|].
  apply (payDriverOnComplete_twice Scenario.env 2000%Z s). reflexivity.
Defined.

(** C10. The settled check comes first: for a ride whose status is
    [completed] or whose payment status is [authorized], any signed-in
    caller, owner of the ride or not, gets success and the store is left
    untouched. *)
Theorem payDriverOnComplete_settled_any_caller env now s caller rideId ride :
  caller ≠ "" → rideId ≠ "" → rides s !! rideId = Some ride →
  r_status ride = Some "completed" ∨ r_payment_status ride = Some "authorized" →
  payDriverOnComplete env now s (Some caller) rideId = (Ok true, s).
Proof.
  intros Hc Hr Hride Hmark. eapply payDriverOnComplete_settled; try done.
  unfold settled. apply orb_true_iff.
  destruct Hmark as [H|H]; [right|left]; by apply bool_decide_eq_true_2.
Qed.

Lemma payDriverOnComplete_settled_any_caller_witness :
  let s := Scenario.trip (Scenario.ride "completed" None) in
  r_userId (Scenario.ride "completed" None) ≠ Some "mallory"
  ∧ payDriverOnComplete Scenario.env 2000%Z s (Some "mallory") "ride-1" = (Ok true, s).
Proof.
  intros s. split; [done|].
  apply (payDriverOnComplete_settled_any_caller Scenario.env 2000%Z s "mallory"
           "ride-1" (Scenario.ride "completed" None));
    [done | done | reflexivity | by left].
Defined.

(** ** Balance writes and ledger entries *)

(** The transfer, the ride settlement and the top-up queue one ledger entry
    for each balance they set. *)
Lemma transferFunds_tx_paired base now fromUid recipient amt memo s ws :
  transferFunds_tx base now fromUid recipient amt memo s = Ok ws → paired ws.
Proof.
  unfold transferFunds_tx, paired. intros H.
  case_match; simplify_eq. done.
Qed.

Lemma payDriverOnComplete_tx_paired env now caller rideId s ws :
  payDriverOnComplete_tx env now caller rideId s = Ok ws → paired ws.
Proof.
  unfold payDriverOnComplete_tx, paired. intros H.
  repeat case_match; simplify_eq; done.
Qed.

Lemma capture_tx_paired uid orderId capture gross ccy credit base now source s ws :
  capture_tx uid orderId capture gross ccy credit base now source s = Ok ws →
  paired ws.
Proof. unfold capture_tx, paired. intros [= <-]. done. Qed.

(** The order settlement sets two balances and queues no ledger entry. *)
Lemma payAndPlaceOrder_tx_unpaired base now uid orderId data s ws :
  payAndPlaceOrder_tx base now uid orderId data s = Ok ws →
  ledger_writes ws = []
  ∧ ∃ ownerId, balance_writes ws = [uid; ownerId] ∧ ¬ paired ws.
Proof.
  unfold payAndPlaceOrder_tx, paired. intros H.
  repeat case_match; simplify_eq. split; [done|].
  eexists. split; [done|]. simpl. intros Hp%Permutation_length. done.
Qed.

Lemma payAndPlaceOrder_ledgers_untouched env now s auth data r s' :
  payAndPlaceOrder env now s auth data = (r, s') →
  transactions s' = transactions s.
Proof.
  unfold payAndPlaceOrder, runTransaction, payAndPlaceOrder_tx. intros H.
  repeat case_match; simplify_eq; done.
Qed.

(** C1. A buyer holding 100 pays 40 for an order at a shop.  The one
    transaction sets two balances (buyer 60, owner 40) and writes the order
    as paid, and it writes no ledger entry: the balance writes are not
    paired with ledger entries, and the ledgers are as empty as before. *)
Theorem payAndPlaceOrder_writes_no_ledger_entry :
  ∃ ws s' r,
    payAndPlaceOrder_tx "ZAR" 2000%Z "alice" (auto_id (orders Scenario.market))
      Scenario.basket Scenario.market = Ok ws
    ∧ payAndPlaceOrder Scenario.env 2000%Z Scenario.market (Some "alice")
        Scenario.basket = (Ok r, s')
    ∧ s' = commit Scenario.market ws
    ∧ or_status r = "paid"
    ∧ balance_writes ws = ["alice"; "olivia"]
    ∧ ledger_writes ws = []
    ∧ (wallets s' !! "alice") ≫= w_balance = Some 60%float
    ∧ (wallets s' !! "olivia") ≫= w_balance = Some 40%float
    ∧ txCollection s' "alice" = ∅
    ∧ txCollection s' "olivia" = ∅
    ∧ transactions s' = ∅.
Proof.
  eexists _, _, _. split; [reflexivity|]. split; [reflexivity|].
  repeat split; reflexivity.
Qed.

(** ** Gateway capture *)

#[local] Arguments commit : simpl never.

Section Capture.

Variables (env : Env) (gw : Gateway) (net : FxNetwork) (now : Timestamp).
Variables (s : Store) (uid orderId token : string).
Variables (body : CaptureBody) (cap : Capture).
Variables (gross credit : float) (ccy : string).

Hypothesis signed_in : uid ≠ "".
Hypothesis order_given : orderId ≠ "".
Hypothesis token_ok : gw_token gw = Ok token.
Hypothesis reply : gw_capture gw token orderId = Reply true (Some body).
Hypothesis completed : cb_status body = Some "COMPLETED".
Hypothesis captured : cb_capture body = Some cap.
Hypothesis value : c_value cap = Some gross.
Hypothesis currency : c_currency_code cap = Some ccy.
Hypothesis currency_given : ccy ≠ "".

Let base := getBaseCurrency env.
Let grossCurrency := JS.toUpperCase ccy.

Hypothesis converted :
  (if String.eqb grossCurrency base then Ok gross
   else (fxConvert env net gross grossCurrency base).2) = Ok credit.

Definition capture_writes (source : option string) : list Write :=
  [ SetWallet uid
      {| d_uid := Some uid;
         d_balance := BalValue (PrimFloat.add (snap_balance (wallets s !! uid)) credit);
         d_currency := base; d_updatedAt := now;
         d_createdAt := Some (snap_createdAt (wallets s !! uid) now) |};
    AddTx uid (topUpEntry orderId (Some cap) gross grossCurrency credit base now source) ].

Lemma capturePayPalOrder_commits :
  capturePayPalOrder env gw net now s (Some uid) orderId
  = (Ok {| cr_status := "SUCCESS"; cr_currency := base;
           cr_paypal_id := c_id cap; cr_paypal_orderId := orderId |},
     commit s (capture_writes None)).
Proof.
  unfold capturePayPalOrder. rewrite uidOrThrow_Some by done. simpl.
  rewrite (eqb_false orderId "") by done.
  rewrite token_ok. simpl. rewrite reply. simpl.
  rewrite completed. rewrite bool_decide_eq_true_2 by done. simpl.
  rewrite captured. simpl. rewrite currency, value. simpl.
  rewrite (eqb_false ccy "") by done.
  fold base grossCurrency. rewrite converted. simpl. reflexivity.
Qed.

Lemma guestCapture_commits :
  cb_custom_id body = Some uid →
  guestCapture env gw net now s orderId
  = (GuestOk base, commit s (capture_writes (Some "GUEST"))).
Proof.
  intros Hcustom. unfold guestCapture.
  rewrite (eqb_false orderId "") by done.
  rewrite token_ok, reply, completed, captured, Hcustom. simpl.
  rewrite str_or_null_Some by done.
  rewrite currency, value. simpl.
  rewrite (eqb_false ccy "") by done.
  fold base grossCurrency. rewrite converted. reflexivity.
Qed.

(** The store after the commit of a capture, whatever the ledger held. *)
Lemma capture_writes_effect (source : option string) :
  let s' := commit s (capture_writes source) in
  (wallets s' !! uid) ≫= w_balance
  = Some (PrimFloat.add (snap_balance (wallets s !! uid)) credit)
  ∧ txCollection s' uid =
      <[auto_id (txCollection s uid) :=
          topUpEntry orderId (Some cap) gross grossCurrency credit base now source]>
        (txCollection s uid).
Proof.
  intros s'. subst s'. unfold capture_writes.
  split; autorewrite with store; repeat case_decide; simplify_eq;
    repeat first [rewrite lookup_insert_eq | rewrite lookup_insert_ne by done];
    done.
Qed.

End Capture.

(** C3, as the claim states it, fails: alice's ledger already holds the
    top-up of capture [CAP-1], and a second capture call that the gateway
    answers with that same completed capture credits her wallet again, on
    the signed-in route and on the guest route alike. *)
Lemma capture_replay_credits_again :
  let s1 := (capturePayPalOrder Scenario.env Scenario.paypal Scenario.offline
               2000%Z Scenario.empty (Some "alice") "ORDER-1").2 in
  let again := (capturePayPalOrder Scenario.env Scenario.paypal Scenario.offline
                  3000%Z s1 (Some "alice") "ORDER-1").2 in
  let guest := (guestCapture Scenario.env Scenario.paypal Scenario.offline
                  3000%Z s1 "ORDER-1").2 in
  (∃ id entry, txCollection s1 "alice" !! id = Some entry
               ∧ tx_captureId entry = Some "CAP-1")
  ∧ (wallets s1 !! "alice") ≫= w_balance = Some 50%float
  ∧ (wallets again !! "alice") ≫= w_balance = Some 100%float
  ∧ size (txCollection again "alice") = 2
  ∧ (wallets guest !! "alice") ≫= w_balance = Some 100%float
  ∧ size (txCollection guest "alice") = 2.
Proof.
  intros s1 again guest. split.
  { exists "0". eexists. split; reflexivity. }
  repeat split; reflexivity.
Qed.

(** C3, amended.  Neither capture route looks at the ledger before it
    credits.  Take a user with an id (the signed-in caller, and the user
    the gateway names in [custom_id] on the guest route), an order id, a
    gateway that hands out its token and answers the capture with an [ok]
    response of status [COMPLETED] holding a capture with an amount and a
    currency code, and an amount that is in the base currency or that
    [fxConvert] converts to it without throwing.  Then, whatever the store
    holds, the call succeeds on both routes: it sets the balance to the
    balance read in the transaction plus the converted amount and appends
    one [TOP_UP] entry that records the capture id and the credit, in the
    same commit.  The same call made again, on the store the first one
    left, succeeds again: the balance is the one read plus the credit once
    more, and the ledger gets a second entry with the same capture id. *)
Theorem capture_credits_each_time env gw net now now' s uid orderId token
    body cap gross credit ccy :
  uid ≠ "" → orderId ≠ "" →
  gw_token gw = Ok token →
  gw_capture gw token orderId = Reply true (Some body) →
  cb_status body = Some "COMPLETED" →
  cb_custom_id body = Some uid →
  cb_capture body = Some cap →
  c_value cap = Some gross →
  c_currency_code cap = Some ccy → ccy ≠ "" →
  (if String.eqb (JS.toUpperCase ccy) (getBaseCurrency env) then Ok gross
   else (fxConvert env net gross (JS.toUpperCase ccy) (getBaseCurrency env)).2)
  = Ok credit →
  ∃ r sA sG id entry entryG,
    capturePayPalOrder env gw net now s (Some uid) orderId = (Ok r, sA)
    ∧ guestCapture env gw net now s orderId = (GuestOk (getBaseCurrency env), sG)
    ∧ txCollection s uid !! id = None
    ∧ (wallets sA !! uid) ≫= w_balance
      = Some (PrimFloat.add (snap_balance (wallets s !! uid)) credit)
    ∧ txCollection sA uid = <[id := entry]> (txCollection s uid)
    ∧ tx_type entry = TOP_UP
    ∧ tx_captureId entry = JS.str_or_null (c_id cap)
    ∧ tx_creditAmount entry = Some credit
    ∧ (wallets sG !! uid) ≫= w_balance
      = Some (PrimFloat.add (snap_balance (wallets s !! uid)) credit)
    ∧ txCollection sG uid = <[id := entryG]> (txCollection s uid)
    ∧ tx_type entryG = TOP_UP
    ∧ tx_captureId entryG = JS.str_or_null (c_id cap)
    ∧ tx_creditAmount entryG = Some credit
    ∧ ∃ r2 sA2 sG2 idA2 idG2 entryA2 entryG2,
        capturePayPalOrder env gw net now' sA (Some uid) orderId = (Ok r2, sA2)
        ∧ guestCapture env gw net now' sG orderId
          = (GuestOk (getBaseCurrency env), sG2)
        ∧ (wallets sA2 !! uid) ≫= w_balance
          = Some (PrimFloat.add (snap_balance (wallets sA !! uid)) credit)
        ∧ txCollection sA uid !! idA2 = None
        ∧ txCollection sA2 uid = <[idA2 := entryA2]> (txCollection sA uid)
        ∧ tx_type entryA2 = TOP_UP
        ∧ tx_captureId entryA2 = tx_captureId entry
        ∧ tx_creditAmount entryA2 = Some credit
        ∧ (wallets sG2 !! uid) ≫= w_balance
          = Some (PrimFloat.add (snap_balance (wallets sG !! uid)) credit)
        ∧ txCollection sG uid !! idG2 = None
        ∧ txCollection sG2 uid = <[idG2 := entryG2]> (txCollection sG uid)
        ∧ tx_type entryG2 = TOP_UP
        ∧ tx_captureId entryG2 = tx_captureId entryG
        ∧ tx_creditAmount entryG2 = Some credit.
Proof.
  intros Hu Ho Htok Hrep Hst Hcust Hcap Hval Hccy Hc Hconv.
  assert (HA : ∀ t s0, capturePayPalOrder env gw net t s0 (Some uid) orderId
               = (Ok {| cr_status := "SUCCESS"; cr_currency := getBaseCurrency env;
                        cr_paypal_id := c_id cap; cr_paypal_orderId := orderId |},
                  commit s0 (capture_writes env t s0 uid orderId cap gross credit
                               ccy None)))
    by (intros; by eapply capturePayPalOrder_commits).
  assert (HG : ∀ t s0, guestCapture env gw net t s0 orderId
               = (GuestOk (getBaseCurrency env),
                  commit s0 (capture_writes env t s0 uid orderId cap gross credit
                               ccy (Some "GUEST"))))
    by (intros; by eapply guestCapture_commits).
  set (sA := commit s (capture_writes env now s uid orderId cap gross credit ccy None)).
  set (sG := commit s (capture_writes env now s uid orderId cap gross credit ccy
                         (Some "GUEST"))).
  destruct (capture_writes_effect env now s uid orderId cap gross credit ccy None)
    as [HbalA HtxA].
  destruct (capture_writes_effect env now s uid orderId cap gross credit ccy
              (Some "GUEST")) as [HbalG HtxG].
  destruct (capture_writes_effect env now' sA uid orderId cap gross credit ccy None)
    as [HbalA2 HtxA2].
  destruct (capture_writes_effect env now' sG uid orderId cap gross credit ccy
              (Some "GUEST")) as [HbalG2 HtxG2].
  eexists _, sA, sG, _, _, _.
  split; [apply HA|]. split; [apply HG|].
  split; [apply auto_id_fresh|].
  split; [exact HbalA|]. split; [exact HtxA|].
  do 3 (split; [reflexivity|]).
  split; [exact HbalG|]. split; [exact HtxG|].
  do 3 (split; [reflexivity|]).
  eexists _, _, _, _, _, _, _.
  split; [apply HA|]. split; [apply HG|].
  split; [exact HbalA2|]. split; [apply auto_id_fresh|]. split; [exact HtxA2|].
  do 3 (split; [reflexivity|]).
  split; [exact HbalG2|]. split; [apply auto_id_fresh|]. split; [exact HtxG2|].
  repeat split; reflexivity.
Qed.

Lemma capture_credits_each_time_witness :
  let s1 := (capturePayPalOrder Scenario.env Scenario.paypal Scenario.offline
               2000%Z Scenario.empty (Some "alice") "ORDER-1").2 in
  ∃ sA sG,
    (capturePayPalOrder Scenario.env Scenario.paypal Scenario.offline
       3000%Z s1 (Some "alice") "ORDER-1").2 = sA
    ∧ guestCapture Scenario.env Scenario.paypal Scenario.offline
        3000%Z s1 "ORDER-1" = (GuestOk "ZAR", sG)
    ∧ (wallets sA !! "alice") ≫= w_balance = Some 100%float
    ∧ (wallets sG !! "alice") ≫= w_balance = Some 100%float.
Proof.
  intros s1.
  destruct (capture_credits_each_time Scenario.env Scenario.paypal
              Scenario.offline 3000%Z 4000%Z s1 "alice" "ORDER-1" "token"
              Scenario.completed
              {| c_id := Some "CAP-1"; c_value := Some 50%float;
                 c_currency_code := Some "ZAR" |} 50 50 "ZAR")
    as (r & sA & sG & id & entry & entryG & HA & HG & _ & HbalA & _ & _ & _ & _
        & HbalG & _);
    [done | done | reflexivity | reflexivity | reflexivity | reflexivity
    | reflexivity | reflexivity | reflexivity | done | reflexivity |].
  exists sA, sG. split; [by rewrite HA|]. split; [exact HG|].
  split; [exact HbalA | exact HbalG].
Defined.

(** ** Paged transactions *)

Section Paging.

Implicit Types (docs : list (string * TxDoc)) (coll : gmap string TxDoc).

(** The ordered documents are the documents of the collection. *)
Lemma orderByCreatedAtDesc_perm coll :
  orderByCreatedAtDesc coll ≡ₚ map_to_list coll.
Proof. apply merge_sort_Permutation. Qed.

Lemma orderByCreatedAtDesc_length coll :
  length (orderByCreatedAtDesc coll) = size coll.
Proof. by rewrite orderByCreatedAtDesc_perm, length_map_to_list. Qed.

Lemma orderByCreatedAtDesc_NoDup coll : NoDup (orderByCreatedAtDesc coll).*1.
Proof. rewrite orderByCreatedAtDesc_perm. apply NoDup_fst_map_to_list. Qed.

Lemma orderByCreatedAtDesc_lookup coll k d :
  orderByCreatedAtDesc coll !! k = Some d → coll !! d.1 = Some d.2.
Proof.
  intros H%list_elem_of_lookup_2. rewrite orderByCreatedAtDesc_perm in H.
  apply elem_of_map_to_list. by destruct d.
Qed.

(** With document ids that do not repeat, the cursor of the document at
    position [k] leaves the documents from position [k + 1] on. *)
Lemma startAfter_drop docs k d :
  NoDup docs.*1 → docs !! k = Some d → startAfter d.1 docs = drop (S k) docs.
Proof.
  revert k. induction docs as [|x rest IH]; intros k Hnd Hk; [done|].
  apply NoDup_cons in Hnd as [Hx Hnd]. destruct k as [|k]; simpl in *.
  - simplify_eq. by rewrite String.eqb_refl.
  - rewrite eqb_false; [by apply IH|].
    intros E. apply Hx. rewrite E.
    apply list_elem_of_fmap. exists d. split; [done|].
    by eapply list_elem_of_lookup_2.
Qed.




End Paging.



(** * Further properties of the wallet functions *)

(** Adding a positive number to zero gives that number. *)
Lemma add_zero_l (x : float) :
  PrimFloat.ltb 0 x = true → PrimFloat.add 0 x = x.
Proof.
  intros H%ltb_Lt. apply Prim2SF_inj. rewrite add_spec.
  change (Prim2SF 0) with (S754_zero false) in *.
  by destruct (Prim2SF x) as [[]|[]| |[]].
Qed.

(** What a write leaves alone, collection by collection. *)
Lemma apply_write_frame s w :
  rides (apply_write s w) = rides s ∨ (∃ r st p t, w = UpdateRide r st p t).
Proof. destruct w; simpl; eauto 10. Qed.

Lemma commit_wallet_other s ws u :
  u ∉ balance_writes ws → wallets (commit s ws) !! u = wallets s !! u.
Proof.
  revert s. induction ws as [|w ws IH]; intros s Hu; [done|].
  rewrite commit_cons, IH.
  - destruct w; simpl in *; try done.
    rewrite lookup_insert_ne; [done|]. set_solver.
  - destruct w; simpl in *; set_solver.
Qed.

Lemma commit_ledger_other s ws u :
  u ∉ ledger_writes ws → txCollection (commit s ws) u = txCollection s u.
Proof.
  revert s. induction ws as [|w ws IH]; intros s Hu; [done|].
  rewrite commit_cons, IH.
  - destruct w; try done.
    rewrite txCollection_AddTx. case_decide; [|done].
    simpl in Hu. set_solver.
  - destruct w; simpl in *; set_solver.
Qed.

Lemma commit_businesses s ws : businesses (commit s ws) = businesses s.
Proof.
  revert s. induction ws as [|w ws IH]; intros s; [done|].
  rewrite commit_cons, IH. by destruct w.
Qed.

Lemma commit_orders_other s ws :
  (∀ id doc, SetOrder id doc ∉ ws) → orders (commit s ws) = orders s.
Proof.
  revert s. induction ws as [|w ws IH]; intros s Hw; [done|].
  rewrite commit_cons, IH.
  - destruct w; simpl; try done. exfalso. eapply Hw. by left.
  - intros id doc Hin. eapply Hw. by right.
Qed.

Lemma commit_rides_other s ws :
  (∀ r st p t, UpdateRide r st p t ∉ ws) → rides (commit s ws) = rides s.
Proof.
  revert s. induction ws as [|w ws IH]; intros s Hw; [done|].
  rewrite commit_cons, IH.
  - destruct w; simpl; try done. exfalso. eapply Hw. by left.
  - intros r st p t Hin. eapply Hw. by right.
Qed.

Lemma commit_drivers_other s ws :
  (∀ d o t, SetDriverLive d o t ∉ ws) → drivers_live (commit s ws) = drivers_live s.
Proof.
  revert s. induction ws as [|w ws IH]; intros s Hw; [done|].
  rewrite commit_cons, IH.
  - destruct w; simpl; try done. exfalso. eapply Hw. by left.
  - intros d o t Hin. eapply Hw. by right.
Qed.

(** A write, or a wallet, is not in a queue that is written out. *)
Ltac not_queued :=
  let Hin := fresh in
  intros Hin;
  repeat (apply elem_of_cons in Hin as [Hin|Hin]; [congruence|]);
  by apply elem_of_nil in Hin.

(** X1. A transfer request is validated before the store is touched: a
    missing recipient or the sender as recipient is refused as an invalid
    recipient, and with a proper recipient an amount that is [NaN], zero or
    negative is refused as invalid, whatever the balances are; the store is
    left as it was. *)
Theorem transferFunds_validation env now s fromUid data :
  fromUid ≠ "" →
  (toUid data = "" ∨ toUid data = fromUid →
   transferFunds env now s (Some fromUid) data
   = (Throw (HttpsError invalid_argument "Invalid recipient"), s))
  ∧ (toUid data ≠ "" → toUid data ≠ fromUid →
     JS.isNaN (amount data) = true ∨ PrimFloat.leb (amount data) 0 = true →
     transferFunds env now s (Some fromUid) data
     = (Throw (HttpsError invalid_argument "amount must be > 0"), s)).
Proof.
  intros Hu. split.
  - intros Hto. unfold transferFunds. rewrite uidOrThrow_Some by done. simpl.
    destruct Hto as [-> | ->]; [done|].
    by rewrite String.eqb_refl, orb_true_r.
  - intros H1 H2 Hbad. unfold transferFunds.
    rewrite uidOrThrow_Some by done. simpl.
    rewrite (eqb_false _ _ H1), (eqb_false _ _ H2). simpl.
    destruct Hbad as [-> | ->]; by rewrite ?orb_true_r.
Qed.

Lemma transferFunds_validation_witness :
  transferFunds Scenario.env 2000%Z Scenario.market (Some "alice")
    {| toUid := "alice"; amount := 40; note := None |}
  = (Throw (HttpsError invalid_argument "Invalid recipient"), Scenario.market)
  ∧ transferFunds Scenario.env 2000%Z Scenario.market (Some "alice")
      {| toUid := "olivia"; amount := (-5)%float; note := None |}
    = (Throw (HttpsError invalid_argument "amount must be > 0"), Scenario.market).
Proof.
  split.
  - apply (transferFunds_validation Scenario.env 2000%Z Scenario.market "alice"
             {| toUid := "alice"; amount := 40; note := None |}); [done | by right].
  - apply (transferFunds_validation Scenario.env 2000%Z Scenario.market "alice"
             {| toUid := "olivia"; amount := (-5)%float; note := None |});
      [done | done | done | by right].
Defined.

(** X2. A transfer between users whose ids are document ids (ids without
    a slash: [walletDoc] reads an id with a slash as a path into another
    document's subcollections) touches the sender's and the recipient's
    wallet and ledger and nothing else: whatever the rest of the request and
    the outcome, the wallet and ledger of every other document id and all
    rides, businesses, orders and driver records are as before. *)
Theorem transferFunds_frame env now s fromUid data r s' :
  has_slash fromUid = false → has_slash (toUid data) = false →
  transferFunds env now s (Some fromUid) data = (r, s') →
  rides s' = rides s ∧ businesses s' = businesses s
  ∧ orders s' = orders s ∧ drivers_live s' = drivers_live s
  ∧ ∀ u, has_slash u = false → u ≠ fromUid → u ≠ toUid data →
         wallets s' !! u = wallets s !! u ∧ txCollection s' u = txCollection s u.
Proof.
  intros _ _. unfold transferFunds, uidOrThrow. intros H.
  destruct (String.eqb fromUid ""); simpl in H;
    [simplify_eq; by repeat split|].
  destruct (String.eqb (toUid data) "" || String.eqb (toUid data) fromUid);
    simpl in H; [simplify_eq; by repeat split|].
  destruct (JS.falsy (amount data) || JS.isNaN (amount data)
            || PrimFloat.leb (amount data) 0);
    simpl in H; [simplify_eq; by repeat split|].
  unfold runTransaction, transferFunds_tx in H.
  destruct (PrimFloat.ltb _ _); simpl in H; simplify_eq; [by repeat split|].
  match goal with
  | |- context [commit ?s0 ?ws] =>
      rewrite (commit_rides_other s0 ws), (commit_businesses s0 ws),
        (commit_orders_other s0 ws), (commit_drivers_other s0 ws)
        by (intros; by not_queued);
      do 4 (split; [done|]); intros u _ ? ?;
      split; [apply commit_wallet_other | apply commit_ledger_other];
      simpl; by not_queued
  end.
Qed.

Lemma transferFunds_frame_witness :
  let s := Scenario.trip (Scenario.ride "on_trip" None) in
  let s' := (transferFunds Scenario.env 2000%Z s (Some "rider")
               {| toUid := "alice"; amount := 40; note := None |}).2 in
  rides s' = rides s
  ∧ wallets s' !! "driver" = wallets s !! "driver"
  ∧ (wallets s' !! "rider") ≫= w_balance = Some 210%float.
Proof.
  intros s s'.
  destruct (transferFunds_frame Scenario.env 2000%Z s "rider"
              {| toUid := "alice"; amount := 40; note := None |}
              (Ok "SUCCESS") s' eq_refl eq_refl eq_refl) as (Hr & _ & _ & _ & Hothers).
  split; [exact Hr|]. split; [by apply Hothers|]. reflexivity.
Defined.

(** Upper case twice is upper case once, and keeps a string non-empty. *)
Lemma upper_ascii_idemp (c : ascii) : JS.upper_ascii (JS.upper_ascii c) = JS.upper_ascii c.
Proof. by destruct c as [[] [] [] [] [] [] [] []]. Qed.

Lemma toUpperCase_idemp (a : string) : JS.toUpperCase (JS.toUpperCase a) = JS.toUpperCase a.
Proof. induction a as [|c a IH]; simpl; [done|]. by rewrite upper_ascii_idemp, IH. Qed.

Lemma toUpperCase_not_empty (a : string) : a ≠ "" → JS.toUpperCase a ≠ "".
Proof. by destruct a. Qed.

Lemma str_or_not_empty (a : option string) (d : string) : d ≠ "" → JS.str_or a d ≠ "".
Proof.
  intros Hd. unfold JS.str_or. destruct a as [a|]; [|done].
  destruct (String.eqb a "") eqn:E; [done|]. by apply String.eqb_neq.
Qed.

Lemma getBaseCurrency_not_empty env : getBaseCurrency env ≠ "".
Proof. by apply toUpperCase_not_empty, str_or_not_empty. Qed.

Lemma getBaseCurrency_upper env :
  JS.toUpperCase (getBaseCurrency env) = getBaseCurrency env.
Proof. apply toUpperCase_idemp. Qed.

Lemma or_zero_not_NaN (x : float) : JS.isNaN (JS.or_zero x) = false.
Proof.
  unfold JS.or_zero, JS.falsy. destruct (JS.isNaN x) eqn:E; simpl; [done|].
  by destruct (PrimFloat.eqb x 0).
Qed.

Lemma snap_balance_not_NaN snap : JS.isNaN (snap_balance snap) = false.
Proof.
  unfold snap_balance. destruct snap as [w|]; [|done].
  destruct (w_balance w); [apply or_zero_not_NaN | done].
Qed.

(** X3. A valid transfer that the sender can afford, for any amount: the
    sender's balance is what was read less the amount, the recipient's what
    was read plus the amount, and both new ledger entries carry that amount.
    A recipient who had no wallet gets one holding exactly the amount, in
    the base currency, created at the time of the transfer. *)
Theorem transferFunds_moves_amount env now s fromUid data :
  fromUid ≠ "" → toUid data ≠ "" → toUid data ≠ fromUid →
  PrimFloat.ltb 0 (amount data) = true →
  PrimFloat.ltb (snap_balance (wallets s !! fromUid)) (amount data) = false →
  ∃ s' out inc,
    transferFunds env now s (Some fromUid) data = (Ok "SUCCESS", s')
    ∧ (wallets s' !! fromUid) ≫= w_balance
      = Some (PrimFloat.sub (snap_balance (wallets s !! fromUid)) (amount data))
    ∧ (wallets s' !! toUid data) ≫= w_balance
      = Some (PrimFloat.add (snap_balance (wallets s !! toUid data)) (amount data))
    ∧ txCollection s' fromUid
      = <[auto_id (txCollection s fromUid) := out]> (txCollection s fromUid)
    ∧ tx_type out = TRANSFER_OUT ∧ tx_amount out = Some (amount data)
    ∧ txCollection s' (toUid data)
      = <[auto_id (txCollection s (toUid data)) := inc]> (txCollection s (toUid data))
    ∧ tx_type inc = TRANSFER_IN ∧ tx_amount inc = Some (amount data)
    ∧ (wallets s !! toUid data = None →
       wallets s' !! toUid data
       = Some {| w_uid := Some (toUid data); w_balance := Some (amount data);
                 w_currency := Some (getBaseCurrency env);
                 w_updatedAt := Some now; w_createdAt := Some now |}).
Proof.
  intros Hu Ht Hne Hpos Hbal.
  destruct (transferFunds_commits env now s fromUid data Hu Ht Hne Hpos Hbal)
    as (s' & Hrun & Hcommit & Hfrom & Hto & Hout & Hin & _).
  eexists s', _, _. split; [exact Hrun|].
  split; [exact Hfrom|]. split; [exact Hto|].
  split; [exact Hout|]. do 2 (split; [reflexivity|]).
  split; [exact Hin|]. do 2 (split; [reflexivity|]).
  intros Hnone. rewrite Hcommit. autorewrite with store.
  rewrite lookup_insert_eq, lookup_insert_ne, Hnone by done.
  unfold merge_wallet. simpl. by rewrite add_zero_l.
Qed.

Lemma transferFunds_moves_amount_witness :
  ∃ s',
    transferFunds Scenario.env 2000%Z Scenario.market (Some "alice")
      {| toUid := "bob"; amount := 12.5; note := Some "lunch" |} = (Ok "SUCCESS", s')
    ∧ (wallets s' !! "alice") ≫= w_balance = Some 87.5%float
    ∧ wallets s' !! "bob"
      = Some {| w_uid := Some "bob"; w_balance := Some 12.5%float;
                w_currency := Some "ZAR"; w_updatedAt := Some 2000%Z;
                w_createdAt := Some 2000%Z |}.
Proof.
  destruct (transferFunds_moves_amount Scenario.env 2000%Z Scenario.market "alice"
              {| toUid := "bob"; amount := 12.5; note := Some "lunch" |})
    as (s' & out & inc & Hrun & Hfrom & _ & _ & _ & _ & _ & _ & _ & Hnew);
    [done | done | done | reflexivity | reflexivity |].
  exists s'. split; [exact Hrun|]. split; [exact Hfrom|]. by apply Hnew.
Defined.

(** ** The balance and the lazily created wallet *)

(** X4. For a signed-in user without a wallet, [getWalletBalance] returns
    balance 0 in the base currency and writes exactly that wallet; every
    other document is untouched.  Asking again returns the same answer and
    changes nothing, and a transfer of any positive amount out of the new
    wallet is refused for insufficient balance. *)
Theorem getWalletBalance_creates env now s uid :
  uid ≠ "" → wallets s !! uid = None →
  ∃ s1,
    getWalletBalance env now s (Some uid)
    = (Ok {| br_balance := 0; br_currency := getBaseCurrency env |}, s1)
    ∧ wallets s1 !! uid
      = Some {| w_uid := Some uid; w_balance := Some 0%float;
                w_currency := Some (getBaseCurrency env);
                w_updatedAt := Some now; w_createdAt := Some now |}
    ∧ (∀ u, u ≠ uid → wallets s1 !! u = wallets s !! u)
    ∧ transactions s1 = transactions s ∧ rides s1 = rides s
    ∧ businesses s1 = businesses s ∧ orders s1 = orders s
    ∧ drivers_live s1 = drivers_live s
    ∧ (∀ now', getWalletBalance env now' s1 (Some uid)
               = (Ok {| br_balance := 0; br_currency := getBaseCurrency env |}, s1))
    ∧ (∀ now' data,
         toUid data ≠ "" → toUid data ≠ uid →
         PrimFloat.ltb 0 (amount data) = true →
         transferFunds env now' s1 (Some uid) data
         = (Throw (HttpsError failed_precondition "Insufficient balance"), s1)).
Proof.
  intros Hu Hnone. unfold getWalletBalance.
  rewrite uidOrThrow_Some, Hnone by done.
  eexists. split; [reflexivity|]. simpl.
  split; [by rewrite lookup_insert_eq|].
  split; [by intros u ?; rewrite lookup_insert_ne|].
  do 5 (split; [done|]). split.
  - intros now'. rewrite lookup_insert_eq. simpl.
    rewrite (eqb_false _ _ (getBaseCurrency_not_empty env)).
    by rewrite getBaseCurrency_upper.
  - intros now' data Ht Hne Hpos.
    rewrite transferFunds_checked by done.
    unfold runTransaction, transferFunds_tx. simpl.
    rewrite lookup_insert_eq. simpl.
    change (JS.or_zero 0) with 0%float. by rewrite Hpos.
Qed.

Lemma getWalletBalance_creates_witness :
  ∃ s1,
    getWalletBalance Scenario.env 2000%Z Scenario.market (Some "bob")
    = (Ok {| br_balance := 0; br_currency := "ZAR" |}, s1)
    ∧ getWalletBalance Scenario.env 3000%Z s1 (Some "bob")
      = (Ok {| br_balance := 0; br_currency := "ZAR" |}, s1)
    ∧ wallets s1 !! "alice" = wallets Scenario.market !! "alice".
Proof.
  destruct (getWalletBalance_creates Scenario.env 2000%Z Scenario.market "bob")
    as (s1 & Hrun & _ & Hothers & _ & _ & _ & _ & _ & Hagain & _);
    [done | reflexivity |].
  exists s1. split; [exact Hrun|]. split; [apply Hagain | by apply Hothers].
Defined.

(** X5. Whatever the wallet document holds, [getWalletBalance] of an
    existing wallet changes nothing and reports a balance that is a number
    (0 for a stored [NaN] or a missing balance) and a currency code that is
    not empty and in upper case. *)
Theorem getWalletBalance_reads env now s uid w :
  uid ≠ "" → wallets s !! uid = Some w →
  ∃ r,
    getWalletBalance env now s (Some uid) = (Ok r, s)
    ∧ br_balance r = snap_balance (Some w)
    ∧ JS.isNaN (br_balance r) = false
    ∧ br_currency r ≠ ""
    ∧ JS.toUpperCase (br_currency r) = br_currency r.
Proof.
  intros Hu Hw. unfold getWalletBalance. rewrite uidOrThrow_Some, Hw by done.
  eexists. split; [reflexivity|]. simpl.
  split; [done|]. split; [apply (snap_balance_not_NaN (Some w))|].
  split; [|apply toUpperCase_idemp].
  apply toUpperCase_not_empty, str_or_not_empty, getBaseCurrency_not_empty.
Qed.

Lemma getWalletBalance_reads_witness :
  getWalletBalance Scenario.env 2000%Z
    {| wallets := {[ "carol" := {| w_uid := Some "carol"; w_balance := Some nan;
                                   w_currency := Some "usd"; w_updatedAt := None;
                                   w_createdAt := None |} ]};
       transactions := ∅; rides := ∅; businesses := ∅; orders := ∅;
       drivers_live := ∅ |} (Some "carol")
  = (Ok {| br_balance := 0; br_currency := "USD" |},
     {| wallets := {[ "carol" := {| w_uid := Some "carol"; w_balance := Some nan;
                                    w_currency := Some "usd"; w_updatedAt := None;
                                    w_createdAt := None |} ]};
        transactions := ∅; rides := ∅; businesses := ∅; orders := ∅;
        drivers_live := ∅ |}).
Proof.
  destruct (getWalletBalance_reads Scenario.env 2000%Z
              {| wallets := {[ "carol" := {| w_uid := Some "carol"; w_balance := Some nan;
                                             w_currency := Some "usd"; w_updatedAt := None;
                                             w_createdAt := None |} ]};
                 transactions := ∅; rides := ∅; businesses := ∅; orders := ∅;
                 drivers_live := ∅ |} "carol"
              {| w_uid := Some "carol"; w_balance := Some nan;
                 w_currency := Some "usd"; w_updatedAt := None;
                 w_createdAt := None |})
    as (r & Hrun & _); [done | reflexivity |].
  reflexivity.
Defined.

(** ** Ride settlement: refusals and what a settlement leaves behind *)

(** X6. A settlement request for a ride that is not settled is refused in
    this order, each time with the store left as it was: an unknown ride is
    not found; a ride of another user is denied, whatever its state; the
    owner's ride must be [on_trip], must have a driver, must have a fare
    above zero, and the rider must hold the fare. *)
Theorem payDriverOnComplete_refusals env now s caller rideId :
  caller ≠ "" → rideId ≠ "" →
  (rides s !! rideId = None →
   payDriverOnComplete env now s (Some caller) rideId
   = (Throw (HttpsError not_found "Ride not found"), s))
  ∧ ∀ ride, rides s !! rideId = Some ride → settled ride = false →
      (r_userId ride ≠ Some caller →
       payDriverOnComplete env now s (Some caller) rideId
       = (Throw (HttpsError permission_denied "Not your ride."), s))
      ∧ (r_userId ride = Some caller →
         (r_status ride ≠ Some "on_trip" →
          payDriverOnComplete env now s (Some caller) rideId
          = (Throw (HttpsError failed_precondition "Ride must be on_trip"), s))
         ∧ (r_status ride = Some "on_trip" →
            (JS.str_or_null (r_driver_id ride) = None →
             payDriverOnComplete env now s (Some caller) rideId
             = (Throw (HttpsError failed_precondition "No assigned driver."), s))
            ∧ ∀ driverId, JS.str_or_null (r_driver_id ride) = Some driverId →
                (r_estimatedFareZAR ride = None
                 ∨ (∃ f, r_estimatedFareZAR ride = Some f
                         ∧ PrimFloat.leb f 0 = true) →
                 payDriverOnComplete env now s (Some caller) rideId
                 = (Throw (HttpsError failed_precondition "Invalid fare amount."), s))
                ∧ ∀ f, r_estimatedFareZAR ride = Some f →
                    JS.isFinite f = true → PrimFloat.ltb 0 f = true →
                    PrimFloat.ltb (snap_balance (wallets s !! caller)) f = true →
                    payDriverOnComplete env now s (Some caller) rideId
                    = (Throw (HttpsError failed_precondition
                                "Insufficient rider balance."), s))).
Proof.
  intros Hc Hr. split.
  { intros Hnone. rewrite payDriverOnComplete_checked by done.
    unfold runTransaction, payDriverOnComplete_tx. by rewrite Hnone. }
  intros ride Hride Hset. split.
  { intros Hown. by eapply payDriverOnComplete_not_owner. }
  intros Hown.
  assert (Hstart : payDriverOnComplete env now s (Some caller) rideId
    = match runTransaction s (payDriverOnComplete_tx env now caller rideId) with
      | (Throw e, s') => (Throw e, s')
      | (Ok _, s') => (Ok true, s')
      end) by by rewrite payDriverOnComplete_checked.
  unfold runTransaction, payDriverOnComplete_tx in Hstart.
  rewrite Hride, Hset, Hown, bool_decide_eq_true_2 in Hstart by done.
  simpl in Hstart. split.
  { intros Hst. rewrite Hstart. by rewrite bool_decide_eq_false_2. }
  intros Hst. rewrite Hst, bool_decide_eq_true_2 in Hstart by done.
  simpl in Hstart. split.
  { intros Hd. rewrite Hstart. by rewrite Hd. }
  intros driverId Hd. rewrite Hd in Hstart. split.
  - intros [Hf | (f & Hf & Hle)]; rewrite Hstart, Hf; [done|].
    unfold JS.or_zero. destruct (JS.falsy f); [done|].
    by rewrite Hle, orb_true_r.
  - intros f Hf Hfin Hpos Hlow. rewrite Hstart, Hf.
    rewrite positive_or_zero by done.
    rewrite Hfin, (ltb_not_leb _ _ Hpos). simpl. by rewrite Hlow.
Qed.

Lemma payDriverOnComplete_refusals_witness :
  let s := Scenario.trip (Scenario.ride "requested" None) in
  payDriverOnComplete Scenario.env 2000%Z s (Some "mallory") "ride-1"
  = (Throw (HttpsError permission_denied "Not your ride."), s)
  ∧ payDriverOnComplete Scenario.env 2000%Z s (Some "rider") "ride-1"
    = (Throw (HttpsError failed_precondition "Ride must be on_trip"), s)
  ∧ payDriverOnComplete Scenario.env 2000%Z s (Some "rider") "ride-2"
    = (Throw (HttpsError not_found "Ride not found"), s).
Proof.
  intros s.
  destruct (payDriverOnComplete_refusals Scenario.env 2000%Z s "mallory" "ride-1")
    as [_ H1]; [done | done |].
  destruct (payDriverOnComplete_refusals Scenario.env 2000%Z s "rider" "ride-1")
    as [_ H2]; [done | done |].
  destruct (payDriverOnComplete_refusals Scenario.env 2000%Z s "rider" "ride-2")
    as [H3 _]; [done | done |].
  split; [by apply (H1 (Scenario.ride "requested" None))|].
  split; [|by apply H3].
  by apply (H2 (Scenario.ride "requested" None)).
Defined.

(** X7. After a settlement that moved money, the ride is [completed] with
    payment status [authorized] and stamped with the time, with its rider,
    driver and fare as they were; the driver's live record says not
    occupied; no other ride, no business and no order has changed. *)
Theorem payDriverOnComplete_completes env now s riderUid rideId ride driverId fare :
  riderUid ≠ "" → rideId ≠ "" → rides s !! rideId = Some ride →
  r_payment_status ride ≠ Some "authorized" →
  r_status ride = Some "on_trip" →
  r_userId ride = Some riderUid →
  r_driver_id ride = Some driverId → driverId ≠ "" →
  r_estimatedFareZAR ride = Some fare →
  JS.isFinite fare = true → PrimFloat.ltb 0 fare = true →
  PrimFloat.ltb (snap_balance (wallets s !! riderUid)) fare = false →
  ∃ s',
    payDriverOnComplete env now s (Some riderUid) rideId = (Ok true, s')
    ∧ rides s' !! rideId
      = Some {| r_status := Some "completed"; r_payment_status := Some "authorized";
                r_userId := Some riderUid; r_driver_id := Some driverId;
                r_estimatedFareZAR := Some fare; r_updatedAt := Some now |}
    ∧ (∀ other, other ≠ rideId → rides s' !! other = rides s !! other)
    ∧ drivers_live s' !! driverId
      = Some {| dl_occupied := Some false; dl_updatedAt := Some now |}
    ∧ (∀ other, other ≠ driverId → drivers_live s' !! other = drivers_live s !! other)
    ∧ businesses s' = businesses s ∧ orders s' = orders s.
Proof.
  intros Hc Hr Hride Hauth Htrip Hown Hdrv Hd Hfare Hfin Hpos Hbal.
  eexists. split; [by eapply payDriverOnComplete_commits|].
  unfold settlement_writes, commit. simpl. rewrite Hride.
  rewrite <- Hown, <- Hdrv, <- Hfare.
  split; [by rewrite lookup_insert_eq|].
  split; [by intros other ?; rewrite lookup_insert_ne|].
  split; [by rewrite lookup_insert_eq|].
  split; [by intros other ?; rewrite lookup_insert_ne|]. done.
Qed.

Lemma payDriverOnComplete_completes_witness :
  ∃ s',
    payDriverOnComplete Scenario.env 2000%Z
      (Scenario.trip (Scenario.ride "on_trip" None)) (Some "rider") "ride-1"
    = (Ok true, s')
    ∧ (rides s' !! "ride-1") ≫= r_status = Some "completed"
    ∧ (drivers_live s' !! "driver") ≫= dl_occupied = Some false.
Proof.
  destruct (payDriverOnComplete_completes Scenario.env 2000%Z
              (Scenario.trip (Scenario.ride "on_trip" None)) "rider" "ride-1"
              (Scenario.ride "on_trip" None) "driver" 100)
    as (s' & Hrun & Hride & _ & Hdrv & _);
    [done | done | reflexivity | done | reflexivity | reflexivity | reflexivity
    | done | reflexivity | reflexivity | reflexivity | reflexivity |].
  exists s'. split; [exact Hrun|]. by rewrite Hride, Hdrv.
Defined.

(** ** Order settlement *)

Section Order.

Variables (env : Env) (now : Timestamp) (s : Store).
Variables (uid : string) (data : OrderRequest).

Hypothesis signed_in : uid ≠ "".
Hypothesis business_given : businessId data ≠ "".
Hypothesis items_given : is_Some (order_items data).
Hypothesis total_finite : JS.isFinite (total data) = true.
Hypothesis total_positive : PrimFloat.ltb 0 (total data) = true.

Lemma payAndPlaceOrder_checked :
  payAndPlaceOrder env now s (Some uid) data =
    match runTransaction s
            (payAndPlaceOrder_tx (getBaseCurrency env) now uid
               (auto_id (orders s)) data) with
    | (Throw e, s') => (Throw e, s')
    | (Ok _, s') =>
        (Ok {| or_orderId := auto_id (orders s); or_status := "paid" |}, s')
    end.
Proof.
  unfold payAndPlaceOrder. rewrite uidOrThrow_Some by done. simpl.
  rewrite (eqb_false _ _ business_given), bool_decide_eq_true_2 by done.
  by rewrite total_finite, (ltb_not_leb _ _ total_positive).
Qed.

End Order.

(** X8. A well-formed order that the buyer can pay, at a business with an
    owner other than the buyer: the call returns a new order id with status
    [paid]; the order is stored under that id, which no earlier order had,
    with the buyer, the owner and the total, and no other order changes; the
    buyer's balance is what was read less the total, and the owner's stored
    balance grows by the total (or is the total when there was none). *)
Theorem payAndPlaceOrder_places env now s uid data biz ownerId :
  uid ≠ "" → businessId data ≠ "" → is_Some (order_items data) →
  JS.isFinite (total data) = true → PrimFloat.ltb 0 (total data) = true →
  businesses s !! businessId data = Some biz →
  b_ownerId biz = Some ownerId → ownerId ≠ "" → ownerId ≠ uid →
  PrimFloat.ltb (snap_balance (wallets s !! uid)) (total data) = false →
  ∃ s' orderId order,
    payAndPlaceOrder env now s (Some uid) data
    = (Ok {| or_orderId := orderId; or_status := "paid" |}, s')
    ∧ orderId ≠ "" ∧ orders s !! orderId = None
    ∧ orders s' = <[orderId := order]> (orders s)
    ∧ o_status order = "paid" ∧ o_userId order = uid ∧ o_ownerId order = ownerId
    ∧ o_businessId order = businessId data ∧ o_total order = total data
    ∧ (wallets s' !! uid) ≫= w_balance
      = Some (PrimFloat.sub (snap_balance (wallets s !! uid)) (total data))
    ∧ (wallets s' !! ownerId) ≫= w_balance
      = Some match (wallets s !! ownerId) ≫= w_balance with
             | Some b => PrimFloat.add b (total data)
             | None => total data
             end.
Proof.
  intros Hu Hb Hi Hfin Hpos Hbiz Hown Howner Hne Hbal.
  eexists _, (auto_id (orders s)), _. split.
  { rewrite payAndPlaceOrder_checked by done.
    unfold runTransaction, payAndPlaceOrder_tx, JS.str_or.
    rewrite Hbiz, Hown. rewrite !(eqb_false _ _ Howner), Hbal.
    reflexivity. }
  split; [apply auto_id_not_empty|]. split; [apply auto_id_fresh|].
  unfold commit. simpl. split; [reflexivity|].
  do 5 (split; [reflexivity|]).
  split.
  - by rewrite lookup_insert_ne, lookup_insert_eq.
  - by rewrite lookup_insert_eq, lookup_insert_ne.
Qed.

Lemma payAndPlaceOrder_places_witness :
  ∃ s' orderId,
    payAndPlaceOrder Scenario.env 2000%Z Scenario.market (Some "alice") Scenario.basket
    = (Ok {| or_orderId := orderId; or_status := "paid" |}, s')
    ∧ (orders s' !! orderId) ≫= (λ o, Some (o_userId o)) = Some "alice"
    ∧ (wallets s' !! "olivia") ≫= w_balance = Some 40%float.
Proof.
  destruct (payAndPlaceOrder_places Scenario.env 2000%Z Scenario.market "alice"
              Scenario.basket {| b_ownerId := Some "olivia" |} "olivia")
    as (s' & orderId & order & Hrun & _ & _ & Hord & _ & Hbuyer & _ & _ & _ & _ & Howner);
    [done | done | by eexists | reflexivity | reflexivity | reflexivity
    | reflexivity | done | done | reflexivity |].
  exists s', orderId. split; [exact Hrun|].
  split; [by rewrite Hord, lookup_insert_eq; simpl; rewrite Hbuyer|exact Howner].
Defined.

(** X9. An order request is refused, with the store left as it was: as an
    invalid argument when the business id is missing, [items] is not an
    array or the total is not a finite number above zero; as not found when
    the business does not exist; as a failed precondition when the business
    has no owner or the buyer's balance is below the total. *)
Theorem payAndPlaceOrder_refusals env now s uid data :
  uid ≠ "" →
  (businessId data = "" ∨ order_items data = None
   ∨ JS.isFinite (total data) = false ∨ PrimFloat.leb (total data) 0 = true →
   payAndPlaceOrder env now s (Some uid) data
   = (Throw (HttpsError invalid_argument "Missing order fields."), s))
  ∧ (businessId data ≠ "" → is_Some (order_items data) →
     JS.isFinite (total data) = true → PrimFloat.ltb 0 (total data) = true →
     (businesses s !! businessId data = None →
      payAndPlaceOrder env now s (Some uid) data
      = (Throw (HttpsError not_found "Business not found."), s))
     ∧ ∀ biz, businesses s !! businessId data = Some biz →
         (JS.str_or_null (b_ownerId biz) = None →
          payAndPlaceOrder env now s (Some uid) data
          = (Throw (HttpsError failed_precondition "Business owner not set."), s))
         ∧ (JS.str_or_null (b_ownerId biz) ≠ None →
            PrimFloat.ltb (snap_balance (wallets s !! uid)) (total data) = true →
            payAndPlaceOrder env now s (Some uid) data
            = (Throw (HttpsError failed_precondition "Insufficient funds."), s))).
Proof.
  intros Hu. split.
  - intros Hbad. unfold payAndPlaceOrder. rewrite uidOrThrow_Some by done. simpl.
    destruct Hbad as [-> | [-> | [-> | ->]]]; simpl;
      by rewrite ?orb_true_r.
  - intros Hb Hi Hfin Hpos. rewrite payAndPlaceOrder_checked by done.
    unfold runTransaction, payAndPlaceOrder_tx. split.
    + by intros ->.
    + intros biz ->. unfold JS.str_or_null, JS.blank, JS.str_or.
      destruct (b_ownerId biz) as [o|]; simpl.
      * destruct (String.eqb o "") eqn:E; simpl.
        -- split; [done|]. by intros [].
        -- rewrite E. split; [done|]. by intros _ ->.
      * split; [done|]. by intros [].
Qed.

Lemma payAndPlaceOrder_refusals_witness :
  payAndPlaceOrder Scenario.env 2000%Z Scenario.market (Some "alice")
    {| businessId := "shop"; order_items := None; address := None; total := 40 |}
  = (Throw (HttpsError invalid_argument "Missing order fields."), Scenario.market)
  ∧ payAndPlaceOrder Scenario.env 2000%Z Scenario.market (Some "alice")
      {| businessId := "shop"; order_items := Some []; address := None; total := 400 |}
    = (Throw (HttpsError failed_precondition "Insufficient funds."), Scenario.market).
Proof.
  split.
  - apply (payAndPlaceOrder_refusals Scenario.env 2000%Z Scenario.market "alice"
             {| businessId := "shop"; order_items := None; address := None;
                total := 40 |}); [done | right; by left].
  - destruct (payAndPlaceOrder_refusals Scenario.env 2000%Z Scenario.market "alice"
                {| businessId := "shop"; order_items := Some []; address := None;
                   total := 400 |}) as [_ H]; [done|].
    destruct H as [_ H]; [done | by eexists | reflexivity | reflexivity |].
    by apply (H {| b_ownerId := Some "olivia" |}).
Defined.

(** ** Errors commit nothing *)

Lemma payAndPlaceOrder_error_no_mutation env now s auth data e s' :
  payAndPlaceOrder env now s auth data = (Throw e, s') → s' = s.
Proof.
  unfold payAndPlaceOrder, runTransaction. intros H.
  repeat case_match; simplify_eq; done.
Qed.

Lemma capturePayPalOrder_error_no_mutation env gw net now s auth orderId e s' :
  capturePayPalOrder env gw net now s auth orderId = (Throw e, s') → s' = s.
Proof.
  unfold capturePayPalOrder, runTransaction, capture_tx. intros H.
  repeat case_match; simplify_eq; done.
Qed.

Lemma guestCapture_error_no_mutation env gw net now s orderId n s' :
  guestCapture env gw net now s orderId = (GuestError n, s') → s' = s.
Proof.
  unfold guestCapture, runTransaction, capture_tx. intros H.
  repeat case_match; simplify_eq; done.
Qed.

(** X10. No settlement call that ends in an error has changed the store:
    the peer transfer, the ride settlement, the order settlement and the
    signed-in capture when they throw, and the guest capture when it
    answers with an error status. *)
Theorem errors_commit_nothing env gw net now s auth :
  (∀ data e s', transferFunds env now s auth data = (Throw e, s') → s' = s)
  ∧ (∀ rideId e s', payDriverOnComplete env now s auth rideId = (Throw e, s') → s' = s)
  ∧ (∀ data e s', payAndPlaceOrder env now s auth data = (Throw e, s') → s' = s)
  ∧ (∀ orderId e s',
       capturePayPalOrder env gw net now s auth orderId = (Throw e, s') → s' = s)
  ∧ (∀ orderId n s',
       guestCapture env gw net now s orderId = (GuestError n, s') → s' = s).
Proof.
  repeat split; intros.
  - by eapply transferFunds_error_no_mutation.
  - by eapply payDriverOnComplete_error_no_mutation.
  - by eapply payAndPlaceOrder_error_no_mutation.
  - by eapply capturePayPalOrder_error_no_mutation.
  - by eapply guestCapture_error_no_mutation.
Qed.

(** ** Gateway capture: who can be credited, and when *)

(** X11. When the gateway does not answer a capture with an [ok] response
    of status [COMPLETED] (an error status, another order status, a body
    that does not parse, a rejected [fetch]), nothing is credited: the
    signed-in capture throws and the guest capture answers 500, and the
    store is as it was. *)
Theorem capture_not_completed env gw net now s uid orderId token :
  uid ≠ "" → orderId ≠ "" → gw_token gw = Ok token →
  match gw_capture gw token orderId with
  | Reply true (Some body) => cb_status body ≠ Some "COMPLETED"
  | _ => True
  end →
  (∃ e, capturePayPalOrder env gw net now s (Some uid) orderId = (Throw e, s))
  ∧ guestCapture env gw net now s orderId = (GuestError 500, s).
Proof.
  intros Hu Ho Htok Hrep. unfold capturePayPalOrder, guestCapture.
  rewrite uidOrThrow_Some, (eqb_false _ _ Ho), Htok by done. simpl.
  destruct (gw_capture gw token orderId) as [m|[] [body|]]; simpl;
    try (split; [by eexists | done]).
  rewrite !bool_decide_eq_false_2 by done. simpl. split; [by eexists | done].
Qed.

Lemma capture_not_completed_witness :
  let gw := {| gw_token := Ok "token";
               gw_capture := λ _ _, Reply true (Some {| cb_status := Some "PAYER_ACTION_REQUIRED";
                                                        cb_custom_id := Some "alice";
                                                        cb_capture := None |}) |} in
  (∃ e, capturePayPalOrder Scenario.env gw Scenario.offline 2000%Z Scenario.market
          (Some "alice") "ORDER-1" = (Throw e, Scenario.market))
  ∧ guestCapture Scenario.env gw Scenario.offline 2000%Z Scenario.market "ORDER-1"
    = (GuestError 500, Scenario.market).
Proof.
  intros gw.
  apply (capture_not_completed Scenario.env gw Scenario.offline 2000%Z
           Scenario.market "alice" "ORDER-1" "token"); done.
Defined.

(** X12. With ids that are document ids (ids without a slash, which
    [walletDoc] would read as a path into another document's
    subcollections): the signed-in capture can change the wallet and
    ledger of the caller only, whatever recipient the order names; the guest
    capture can change those of the user named in the gateway's
    [custom_id] only, whatever the request says.  Neither touches rides,
    businesses, orders or driver records. *)
Theorem capture_credits_only env gw net now s orderId :
  (∀ uid r s',
     has_slash uid = false →
     capturePayPalOrder env gw net now s (Some uid) orderId = (r, s') →
     rides s' = rides s ∧ businesses s' = businesses s ∧ orders s' = orders s
     ∧ drivers_live s' = drivers_live s
     ∧ ∀ u, has_slash u = false → u ≠ uid →
            wallets s' !! u = wallets s !! u ∧ txCollection s' u = txCollection s u)
  ∧ (∀ r s',
       guestCapture env gw net now s orderId = (r, s') →
       rides s' = rides s ∧ businesses s' = businesses s ∧ orders s' = orders s
       ∧ drivers_live s' = drivers_live s
       ∧ ∀ u, has_slash u = false →
              (∀ token ok body c,
                 gw_token gw = Ok token →
                 gw_capture gw token orderId = Reply ok (Some body) →
                 cb_custom_id body = Some c →
                 c ≠ u ∧ has_slash c = false) →
              wallets s' !! u = wallets s !! u ∧ txCollection s' u = txCollection s u).
Proof.
  split.
  - intros uid r s' _. unfold capturePayPalOrder, uidOrThrow. intros H.
    destruct (String.eqb uid ""); simpl in H; [simplify_eq; by repeat split|].
    match type of H with
    | match ?b with _ => _ end = _ => destruct b as [[[[[[u cap] g] gc] b0] cr]|] eqn:Hb
    end; [|simplify_eq; by repeat split].
    assert (u = uid) as ->.
    { unfold bind in Hb. repeat (case_match; simplify_eq/=); done. }
    unfold runTransaction, capture_tx in H. simplify_eq.
    match goal with
    | |- context [commit ?s0 ?ws] =>
        rewrite (commit_rides_other s0 ws), (commit_businesses s0 ws),
          (commit_orders_other s0 ws), (commit_drivers_other s0 ws)
          by (intros; by not_queued);
        do 4 (split; [done|]); intros u _ ?;
        split; [apply commit_wallet_other | apply commit_ledger_other];
        simpl; by not_queued
    end.
  - intros r s'. unfold guestCapture, runTransaction, capture_tx. intros H.
    destruct (String.eqb orderId ""); [simplify_eq; by repeat split|].
    destruct (gw_token gw) as [token|] eqn:Htok; [|simplify_eq; by repeat split].
    destruct (gw_capture gw token orderId) as [m|ok [body|]] eqn:Hrep;
      try (simplify_eq; by repeat split).
    destruct (negb _); [simplify_eq; by repeat split|].
    destruct (JS.str_or_null (cb_custom_id body)) as [recipient|] eqn:Hrec;
      [|simplify_eq; by repeat split].
    assert (Hcustom : cb_custom_id body = Some recipient).
    { unfold JS.str_or_null in Hrec. by destruct (JS.blank _). }
    destruct (if String.eqb _ _ then _ else _); simplify_eq;
      [|by repeat split].
    match goal with
    | |- context [commit ?s0 ?ws] =>
        rewrite (commit_rides_other s0 ws), (commit_businesses s0 ws),
          (commit_orders_other s0 ws), (commit_drivers_other s0 ws)
          by (intros; by not_queued);
        do 4 (split; [done|]); intros u _ Hu;
        destruct (Hu _ _ _ _ eq_refl Hrep Hcustom) as [Hne _];
        split; [apply commit_wallet_other | apply commit_ledger_other];
        simpl; by not_queued
    end.
Qed.

(** ** Currency conversion: the chain of calls *)

Lemma fxConvert_chain_witness :
  let net : FxNetwork :=
    λ c, match fx_provider c with
         | ExchangeRateApiV6 _ => FetchFails "timeout"
         | Frankfurter => Reply false (Some 9%float)
         | ExchangeRateHost => Reply true (Some 2.5%float)
         end in
  (fxConvert {| APP_BASE_CURRENCY := None; APP_PLATFORM_FEE_RATE := None;
                FX_API_KEY := Some " k1 " |} net 50 "zar" "usd").2 = Ok 2.5%float.
Proof.
  intros net.
  rewrite (fxConvert_chain {| APP_BASE_CURRENCY := None; APP_PLATFORM_FEE_RATE := None;
                              FX_API_KEY := Some " k1 " |} net 50 "zar" "usd");
    [reflexivity | done | done].
Defined.

(** X14. The calls a conversion between two different currencies makes: at
    least one, a beginning of the list v6 (only with a non-blank API key),
    Frankfurter, exchangerate.host, each with the upper-cased codes and the
    amount; and every call before the last one got no accepted answer, so
    no provider is asked after one has answered. *)
Theorem fxConvert_calls env net (amount : float) (from to : string) :
  JS.toUpperCase from ≠ JS.toUpperCase to →
  let call p := {| fx_provider := p; fx_from := JS.toUpperCase from;
                   fx_to := JS.toUpperCase to; fx_amount := amount |} in
  let key := JS.trim (JS.str_or (FX_API_KEY env) "") in
  let calls := (fxConvert env net amount from to).1 in
  calls ≠ []
  ∧ calls `prefix_of`
      ((if String.eqb key "" then [] else [call (ExchangeRateApiV6 key)])
       ++ [call Frankfurter; call ExchangeRateHost])
  ∧ ∀ c, c ∈ removelast calls → accepted net c = None.
Proof.
  intros Hne call key calls. subst call key calls.
  unfold fxConvert, accepted, tryGet. rewrite (eqb_false _ _ Hne). cbv zeta.
  destruct (String.eqb _ ""); simpl;
    repeat (match goal with
            | |- context [net ?c] => destruct (net c) as [?|[] []] eqn:?
            end; simpl);
    (split; [done|]); (split; [by eexists | ]);
    intros c Hc;
    repeat (apply elem_of_cons in Hc as [->|Hc];
            [by repeat (case_match; simplify_eq)|]);
    by apply elem_of_nil in Hc.
Qed.

Lemma fxConvert_calls_witness :
  (fxConvert Scenario.env Scenario.offline 50 "ZAR" "USD").1 ≠ []
  ∧ (fxConvert Scenario.env Scenario.offline 50 "ZAR" "USD").1
    = [ {| fx_provider := Frankfurter; fx_from := "ZAR"; fx_to := "USD";
           fx_amount := 50 |};
        {| fx_provider := ExchangeRateHost; fx_from := "ZAR"; fx_to := "USD";
           fx_amount := 50 |} ].
Proof.
  destruct (fxConvert_calls Scenario.env Scenario.offline 50 "ZAR" "USD")
    as (Hne & _); [done|].
  split; [exact Hne | reflexivity].
Defined.

(** ** Pages of transactions, in general *)

Section Pages.

Implicit Types (docs : list (string * TxDoc)) (coll : gmap string TxDoc).

Global Instance newer_first_total : Total newer_first.
Proof.
  intros a b. unfold newer_first.
  destruct (Z.lt_trichotomy (tx_createdAt a.2) (tx_createdAt b.2)) as [?|[E|?]];
    [by right; left | | by left; left].
  destruct (String.leb_total a.1 b.1); [right|left]; right; by rewrite E.
Qed.

Lemma Sorted_app_inv {A} (R : relation A) (l1 l2 : list A) :
  Sorted R (l1 ++ l2) → Sorted R l1 ∧ Sorted R l2.
Proof.
  induction l1 as [|x l1 IH]; simpl; [by split; [constructor|]|].
  intros H. apply Sorted_inv in H as [Hs Hd].
  destruct (IH Hs) as [H1 H2]. split; [|done].
  constructor; [done|]. destruct l1; [constructor|].
  apply HdRel_inv in Hd. by constructor.
Qed.

Lemma Sorted_segment {A} (R : relation A) (l : list A) (k m : nat) :
  Sorted R l → Sorted R (take m (drop k l)).
Proof.
  intros H. rewrite <- (take_drop k l) in H.
  apply Sorted_app_inv in H as [_ H].
  rewrite <- (take_drop m (drop k l)) in H.
  by apply Sorted_app_inv in H as [H _].
Qed.

Lemma limit_from_take limit (i : nat) docs :
  ∃ m, limit_from limit i docs = take m docs.
Proof.
  revert i. induction docs as [|d rest IH]; intros i; simpl; [by exists 0%nat|].
  destruct (PrimFloat.ltb _ _); [|by exists 0%nat].
  destruct (IH (S i)) as [m ->]. by exists (S m).
Qed.

Lemma startAfter_is_drop cursor docs : ∃ k, startAfter cursor docs = drop k docs.
Proof.
  induction docs as [|d rest [k IH]]; simpl; [by exists 0%nat|].
  destruct (String.eqb _ _); [by exists 1%nat | by exists (S k)].
Qed.

(** The items of a page are a stretch of the ordered ledger. *)
Lemma getTransactions_segment s uid requested cursor page :
  getTransactions s (Some uid) requested cursor = Ok page →
  ∃ k m, items page = take m (drop k (orderByCreatedAtDesc (txCollection s uid))).
Proof.
  unfold getTransactions, uidOrThrow.
  destruct (String.eqb uid ""); [done|]. simpl.
  destruct (negb _); [done|]. intros [= <-]. simpl.
  set (l := orderByCreatedAtDesc _).
  assert (∃ k, match JS.str_or_null cursor with
               | Some c => match txCollection s uid !! c with
                           | Some _ => startAfter c l
                           | None => l
                           end
               | None => l
               end = drop k l) as [k ->].
  { repeat case_match; try (by exists 0%nat). apply startAfter_is_drop. }
  destruct (limit_from_take (page_limit requested) 0 (drop k l)) as [m ->].
  by exists k, m.
Qed.

End Pages.

(** X15. Every page [getTransactions] returns, for any limit and cursor,
    holds entries of the caller's own ledger, each under its document id
    and none twice, newest first (entries of one instant by id,
    descending). *)
Theorem getTransactions_own_entries s uid requested cursor page :
  getTransactions s (Some uid) requested cursor = Ok page →
  Sorted newer_first (items page)
  ∧ NoDup (items page).*1
  ∧ ∀ id doc, (id, doc) ∈ items page → txCollection s uid !! id = Some doc.
Proof.
  intros (k & m & ->)%getTransactions_segment.
  set (l := orderByCreatedAtDesc (txCollection s uid)).
  assert (Hsub : take m (drop k l) `sublist_of` l).
  { etrans; [apply sublist_take | apply sublist_drop]. }
  split; [apply Sorted_segment, Sorted_merge_sort, _|].
  split.
  - eapply sublist_NoDup; [apply orderByCreatedAtDesc_NoDup|].
    by apply fmap_sublist.
  - intros id doc Hin. eapply elem_of_sublist in Hin; [|exact Hsub].
    apply list_elem_of_lookup in Hin as [i Hi].
    by apply orderByCreatedAtDesc_lookup in Hi.
Qed.

Lemma getTransactions_own_entries_witness :
  ∃ page,
    getTransactions Scenario.busy (Some "alice") (Some 3%float) None = Ok page
    ∧ length (items page) = 3%nat
    ∧ Sorted newer_first (items page)
    ∧ NoDup (items page).*1.
Proof.
  eexists. split; [by vm_compute|]. split; [reflexivity|].
  destruct (getTransactions_own_entries Scenario.busy "alice" (Some 3%float) None
              _ eq_refl) as (Hs & Hn & _).
  split; [exact Hs | exact Hn].
Defined.

Global Instance spec_float_eq_dec : EqDecision spec_float.
Proof. solve_decision. Defined.

Global Instance float_eq_dec : EqDecision float.
Proof.
  intros x y.
  destruct (decide (Prim2SF x = Prim2SF y)) as [E|E].
  - left. by apply Prim2SF_inj.
  - right. by intros ->.
Defined.

(** The doubles of the counts up to 50 compare as the counts do, are
    integers, and from 1 on are limits that the clamp keeps. *)
Definition counts_table : bool :=
  forallb (λ n,
    is_integer (JS.of_nat n)
    && (if (1 <=? n)%nat
        then bool_decide (page_limit (Some (JS.of_nat n)) = JS.of_nat n)
        else true)
    && forallb (λ i,
         Bool.eqb (PrimFloat.ltb (JS.of_nat i) (JS.of_nat n)) (i <? n)%nat
         && Bool.eqb (PrimFloat.eqb (JS.of_nat i) (JS.of_nat n)) (i =? n)%nat)
       (seq 0 51))
    (seq 0 51).

Lemma counts_table_true : counts_table = true.
Proof. by vm_compute. Qed.

Lemma counts_spec (i n : nat) :
  (i ≤ 50)%nat → (n ≤ 50)%nat →
  is_integer (JS.of_nat n) = true
  ∧ ((1 ≤ n)%nat → page_limit (Some (JS.of_nat n)) = JS.of_nat n)
  ∧ PrimFloat.ltb (JS.of_nat i) (JS.of_nat n) = (i <? n)%nat
  ∧ PrimFloat.eqb (JS.of_nat i) (JS.of_nat n) = (i =? n)%nat.
Proof.
  intros Hi Hn. pose proof counts_table_true as H. unfold counts_table in H.
  rewrite forallb_forall in H. specialize (H n).
  rewrite !andb_true_iff, forallb_forall in H.
  destruct H as [[Hint Hlim] Hcmp]; [apply in_seq; lia|].
  specialize (Hcmp i). rewrite andb_true_iff in Hcmp.
  destruct Hcmp as [Hlt Heq]; [apply in_seq; lia|].
  apply Bool.eqb_prop in Hlt, Heq.
  split; [done|]. split; [|done].
  intros H1. destruct (1 <=? n)%nat eqn:E; [by apply bool_decide_eq_true in Hlim|].
  apply Nat.leb_gt in E. lia.
Qed.

(** A limit that is a count up to 50 lets that many documents through. *)
Lemma limit_from_count (n i : nat) (docs : list (string * TxDoc)) :
  (n ≤ 50)%nat → (i ≤ n)%nat →
  limit_from (JS.of_nat n) i docs = take (n - i) docs.
Proof.
  intros Hn. revert i. induction docs as [|d rest IH]; intros i Hi; simpl.
  - by rewrite take_nil.
  - destruct (counts_spec i n) as (_ & _ & -> & _); [lia | lia |].
    destruct (decide (i = n)) as [->|Hne].
    + rewrite Nat.ltb_irrefl. by rewrite Nat.sub_diag.
    + replace (i <? n)%nat with true by (symmetry; apply Nat.ltb_lt; lia).
      rewrite IH by lia. by replace (n - i)%nat with (S (n - S i)) by lia.
Qed.

(** The page of [n] documents that starts at position [start] of the
    ordered ledger [l]: a cursor, the id of its last document, exactly
    when it is full. *)
Definition page_at (l : list (string * TxDoc)) (start n : nat) : TransactionsPage :=
  {| items := take n (drop start l);
     nextCursor := if decide (start + n ≤ length l)%nat
                   then fst <$> l !! (start + n - 1)%nat
                   else None |}.

Lemma getTransactions_from (s : Store) (uid : string) (n start : nat)
    (l : list (string * TxDoc)) :
  (1 ≤ n ≤ 50)%nat →
  (let docs := limit_from (JS.of_nat n) 0 (drop start l) in
   {| items := docs;
      nextCursor := if PrimFloat.eqb (JS.of_nat (length docs)) (JS.of_nat n)
                    then fst <$> last docs else None |})
  = page_at l start n.
Proof.
  intros Hn. cbv zeta. rewrite limit_from_count by lia. rewrite Nat.sub_0_r.
  unfold page_at. f_equal.
  assert (Hlen : (length (take n (drop start l)) ≤ n)%nat)
    by (rewrite length_take; lia).
  destruct (counts_spec (length (take n (drop start l))) n) as (_ & _ & _ & ->);
    [lia | lia |].
  rewrite length_take, length_drop in *.
  destruct (decide (start + n ≤ length l)%nat) as [Hfull|Hshort].
  - replace (n `min` (length l - start))%nat with n by lia.
    rewrite Nat.eqb_refl. rewrite last_lookup, length_take, length_drop.
    replace (n `min` (length l - start))%nat with n by lia.
    rewrite lookup_take_lt by lia. rewrite lookup_drop.
    do 2 f_equal. lia.
  - replace (_ =? _)%nat with false; [done|].
    symmetry. apply Nat.eqb_neq. lia.
Qed.

(** X16. For a limit that is a whole number [n] from 1 to 50,
    [getTransactions] returns the [n] entries (or the fewer that are left)
    of the ordered ledger that follow the cursor's entry, and from its
    start without a cursor or with a cursor that names no entry of the
    ledger.  It returns a next cursor, the id of the last entry of the page,
    exactly when the page is full; so when exactly [n] entries were left
    the cursor is returned and the page it leads to is empty and has no
    cursor. *)
Theorem getTransactions_page s uid (n : nat) :
  uid ≠ "" → (1 ≤ n ≤ 50)%nat →
  let l := orderByCreatedAtDesc (txCollection s uid) in
  (∀ cursor,
     JS.str_or_null cursor = None
     ∨ (∃ c, JS.str_or_null cursor = Some c ∧ txCollection s uid !! c = None) →
     getTransactions s (Some uid) (Some (JS.of_nat n)) cursor = Ok (page_at l 0 n))
  ∧ (∀ k d, l !! k = Some d → d.1 ≠ "" →
       getTransactions s (Some uid) (Some (JS.of_nat n)) (Some d.1)
       = Ok (page_at l (S k) n))
  ∧ (∀ start, (start + n = length l)%nat →
       ∃ d, l !! (start + n - 1)%nat = Some d
            ∧ nextCursor (page_at l start n) = Some d.1
            ∧ page_at l (start + n) n = {| items := []; nextCursor := None |}).
Proof.
  intros Hu Hn l.
  assert (Hlimit : page_limit (Some (JS.of_nat n)) = JS.of_nat n)
    by (destruct (counts_spec 0 n) as (_ & H & _); [lia | lia | apply H; lia]).
  assert (Hint : is_integer (JS.of_nat n) = true)
    by (destruct (counts_spec 0 n) as (H & _); [lia | lia | exact H]).
  split; [|split].
  - intros cursor Hc. unfold getTransactions.
    rewrite uidOrThrow_Some by done. simpl. rewrite Hlimit, Hint. simpl.
    fold l. rewrite <- (getTransactions_from s uid n 0 l Hn). rewrite drop_0.
    destruct Hc as [-> | (c & -> & ->)]; done.
  - intros k d Hk Hid. unfold getTransactions.
    rewrite uidOrThrow_Some by done. simpl. rewrite Hlimit, Hint. simpl.
    rewrite str_or_null_Some by done.
    rewrite (orderByCreatedAtDesc_lookup _ _ _ Hk). fold l.
    rewrite (startAfter_drop l k d (orderByCreatedAtDesc_NoDup _) Hk).
    by rewrite <- (getTransactions_from s uid n (S k) l Hn).
  - intros start Hlen.
    destruct (lookup_lt_is_Some_2 l (start + n - 1)) as [d Hd]; [lia|].
    exists d. split; [done|]. unfold page_at. simpl.
    rewrite decide_True by lia. rewrite Hd. split; [done|].
    rewrite drop_ge by lia. rewrite take_nil.
    by rewrite decide_False by lia.
Qed.

Lemma getTransactions_page_witness :
  getTransactions Scenario.busy (Some "alice") (Some (JS.of_nat 5)) None
  = Ok (page_at (orderByCreatedAtDesc (txCollection Scenario.busy "alice")) 0 5)
  ∧ ∃ d, orderByCreatedAtDesc (txCollection Scenario.busy "alice") !! 24%nat = Some d
         ∧ nextCursor
             (page_at (orderByCreatedAtDesc (txCollection Scenario.busy "alice")) 20 5)
           = Some d.1
         ∧ page_at (orderByCreatedAtDesc (txCollection Scenario.busy "alice")) 25 5
           = {| items := []; nextCursor := None |}.
Proof.
  destruct (getTransactions_page Scenario.busy "alice" 5) as (H0 & _ & Hedge);
    [done | lia |].
  split; [apply H0; by left|].
  apply (Hedge 20%nat). by vm_compute.
Defined.
(** ** Notifications *)

Lemma prefix_not_empty (p t : string) : p ≠ "" → String.prefix p t = true → t ≠ "".
Proof. intros Hp H ->. destruct p; [done|]. discriminate. Qed.

(** The push tokens kept are those of the user document that start with
    [ExponentPushToken]; none is empty. *)
Lemma expoTokens_spec user t :
  t ∈ expoTokens user ↔
  Some t ∈ default [] (user ≫= u_expoPushTokens)
  ∧ String.prefix "ExponentPushToken" t = true.
Proof.
  unfold expoTokens. rewrite list_elem_of_omap. split.
  - intros ([tok|] & Hin & H); [|done].
    destruct (String.prefix _ tok) eqn:E; [|done]. by simplify_eq.
  - intros [Hin Hp]. exists (Some t). by rewrite Hp.
Qed.

Lemma expoTokens_not_empty user :
  filter (λ t, t ≠ "") (expoTokens user) = expoTokens user.
Proof.
  assert (H : Forall (λ t, t ≠ "") (expoTokens user)).
  { apply Forall_forall. intros t [_ H]%expoTokens_spec.
    by apply (prefix_not_empty "ExponentPushToken"). }
  induction H as [|t l Ht _ IH]; [done|].
  rewrite filter_cons_True by done. by rewrite IH.
Qed.

(** The messages of a push: one for each non-empty token, in their order,
    with the title, body and data given. *)
Lemma sendExpoPush_messages expo to title body data :
  pm_to <$> concat (sendExpoPush expo to title body data).1
  = filter (λ t, t ≠ "") to
  ∧ Forall (λ m, pm_sound m = "default" ∧ pm_title m = title
                 ∧ pm_body m = body ∧ pm_data m = data)
      (concat (sendExpoPush expo to title body data).1).
Proof.
  unfold sendExpoPush.
  destruct (filter (λ t, t ≠ "") to) as [|t list] eqn:E; simpl.
  - split; [done | constructor].
  - rewrite app_nil_r. split.
    + f_equal. rewrite <- list_fmap_compose. by rewrite list_fmap_id.
    + constructor; [done|]. apply Forall_fmap, Forall_forall. by intros.
Qed.

(** X17. [sendExpoPush] posts at most one request.  Its messages are one
    for each non-empty token, in their order, each with the title, body and
    data given; nothing is posted exactly when every token is empty.  The
    call throws only what the request rejects with: the status the service
    answers is not looked at. *)
Theorem sendExpoPush_posts expo to title body data :
  (length (sendExpoPush expo to title body data).1 ≤ 1)%nat
  ∧ pm_to <$> concat (sendExpoPush expo to title body data).1
    = filter (λ t, t ≠ "") to
  ∧ Forall (λ m, pm_sound m = "default" ∧ pm_title m = title
                 ∧ pm_body m = body ∧ pm_data m = data)
      (concat (sendExpoPush expo to title body data).1)
  ∧ ((sendExpoPush expo to title body data).1 = [] ↔ Forall (λ t, t = "") to)
  ∧ ∀ e, (sendExpoPush expo to title body data).2 = Throw e →
         ∃ batch m, (sendExpoPush expo to title body data).1 = [batch]
                    ∧ expo batch = Some m ∧ e = JsError m.
Proof.
  unfold sendExpoPush.
  destruct (filter (λ t, t ≠ "") to) as [|t list] eqn:E; simpl.
  - split; [lia|]. split; [done|]. split; [constructor|].
    split; [|done]. split; [intros _|done].
    apply Forall_forall. intros t Ht.
    destruct (decide (t = "")) as [|Hne]; [done|].
    assert (t ∈ filter (λ t, t ≠ "") to) as Hin by by apply list_elem_of_filter.
    rewrite E in Hin. by apply elem_of_nil in Hin.
  - split; [lia|]. split.
    { rewrite app_nil_r. f_equal. rewrite <- list_fmap_compose.
      by rewrite list_fmap_id. }
    split.
    { rewrite app_nil_r. constructor; [done|].
      apply Forall_fmap, Forall_forall. by intros. }
    split.
    { split; [done|]. intros H. exfalso.
      assert (t ∈ filter (λ t, t ≠ "") to) as [Hne Hin]%list_elem_of_filter
        by (rewrite E; left).
      rewrite Forall_forall in H. by apply Hne, H. }
    intros e. destruct (expo _) as [m|] eqn:Em; [|done].
    intros [= <-]. by eexists _, m.
Qed.

(** A successful [payAndPlaceOrder] has stored the order it names, with the
    caller as buyer and status [paid]. *)
Lemma payAndPlaceOrder_stores env now s uid data resp s' :
  payAndPlaceOrder env now s (Some uid) data = (Ok resp, s') →
  uid ≠ ""
  ∧ ∃ order, orders s' !! or_orderId resp = Some order
             ∧ o_userId order = uid ∧ o_status order = "paid".
Proof.
  unfold payAndPlaceOrder, uidOrThrow. simpl.
  destruct (String.eqb uid "") eqn:Eu; [done|]. simpl.
  destruct (_ || _); [done|]. simpl.
  unfold runTransaction, payAndPlaceOrder_tx.
  destruct (businesses s !! businessId data) as [biz|]; [|done]. simpl.
  destruct (String.eqb (JS.str_or (b_ownerId biz) "") ""); [done|]. simpl.
  destruct (PrimFloat.ltb _ _); [done|]. simpl.
  intros [= <- <-]. split; [by apply String.eqb_neq|].
  eexists. unfold commit. simpl. rewrite lookup_insert_eq. done.
Qed.

(** X18. After [payAndPlaceOrder] has placed an order, an update of that
    order that changes its status and keeps its buyer makes
    [notifyBuyerOrderStatus] post one message to each push token of the
    buyer (the strings of the buyer's [expoPushTokens] that start with
    [ExponentPushToken]) and to nobody else, saying the new status and
    carrying the order id; an update that leaves the status as it was posts
    nothing. *)
Theorem order_update_notifies_buyer expo users env now s uid data resp s'
    order after :
  payAndPlaceOrder env now s (Some uid) data = (Ok resp, s') →
  orders s' !! or_orderId resp = Some order →
  o_userId after = o_userId order →
  (o_status after ≠ o_status order →
   pm_to <$> concat (notifyBuyerOrderStatus expo users (or_orderId resp)
                       (Some (snap_of_order order)) (Some (snap_of_order after))).1
   = expoTokens (users !! uid)
   ∧ Forall (λ m, pm_title m = "Order update"
                  ∧ pm_body m = ("Your order is now " ++ o_status after)%string
                  ∧ pm_data m = [("orderId", or_orderId resp);
                                 ("status", o_status after)])
       (concat (notifyBuyerOrderStatus expo users (or_orderId resp)
                  (Some (snap_of_order order)) (Some (snap_of_order after))).1))
  ∧ (o_status after = o_status order →
     notifyBuyerOrderStatus expo users (or_orderId resp)
       (Some (snap_of_order order)) (Some (snap_of_order after)) = ([], Ok tt)).
Proof.
  intros (Hu & o & Ho & Hbuyer & _)%payAndPlaceOrder_stores Horder Hsame.
  rewrite Ho in Horder. injection Horder as <-.
  unfold notifyBuyerOrderStatus, snap_of_order. simpl. split.
  - intros Hst. rewrite bool_decide_eq_false_2 by congruence.
    rewrite Hsame, Hbuyer. rewrite str_or_null_Some by done.
    destruct (sendExpoPush_messages expo (expoTokens (users !! uid)) "Order update"
                ("Your order is now " ++ o_status after)
                [("orderId", or_orderId resp); ("status", o_status after)])
      as (Hto & Hmsg).
    rewrite expoTokens_not_empty in Hto.
    destruct (expoTokens (users !! uid)) as [|t ts] eqn:E; [by split|].
    split; [exact Hto|].
    eapply Forall_impl; [exact Hmsg|]. by intros m (_ & ? & ? & ?).
  - intros ->. by rewrite bool_decide_eq_true_2.
Qed.

Lemma order_update_notifies_buyer_witness :
  ∃ resp s' order,
    payAndPlaceOrder Scenario.env 2000%Z Scenario.market (Some "alice") Scenario.basket
    = (Ok resp, s')
    ∧ orders s' !! or_orderId resp = Some order
    ∧ pm_to <$> concat
        (notifyBuyerOrderStatus (λ _, None)
           {[ "alice" := {| u_username := None;
                            u_expoPushTokens :=
                              Some [Some "ExponentPushToken[a1]"; None;
                                    Some "token"] |} ]}
           (or_orderId resp) (Some (snap_of_order order))
           (Some {| os_status := Some "accepted"; os_userId := Some "alice" |})).1
      = ["ExponentPushToken[a1]"].
Proof.
  destruct (payAndPlaceOrder Scenario.env 2000%Z Scenario.market (Some "alice")
              Scenario.basket) as [[resp|e] s'] eqn:Hrun; [|by vm_compute in Hrun].
  destruct (payAndPlaceOrder_stores _ _ _ _ _ _ _ Hrun) as (_ & order & Ho & Hb & Hs).
  exists resp, s', order. split; [done|]. split; [done|].
  destruct (order_update_notifies_buyer (λ _, None)
              {[ "alice" := {| u_username := None;
                               u_expoPushTokens :=
                                 Some [Some "ExponentPushToken[a1]"; None;
                                       Some "token"] |} ]}
              _ _ _ _ _ _ _ order
              {| o_businessId := o_businessId order; o_ownerId := o_ownerId order;
                 o_userId := "alice"; o_items := o_items order;
                 o_subtotal := o_subtotal order; o_total := o_total order;
                 o_deliveryAddress := o_deliveryAddress order;
                 o_status := "accepted"; o_createdAt := o_createdAt order;
                 o_updatedAt := 3000%Z |} Hrun Ho)
    as [Hpush _]; [by rewrite Hb|].
  destruct Hpush as [Hto _]; [simpl; by rewrite Hs|].
  etrans; [exact Hto|]. by vm_compute.
Defined.

(** X19. A new message with sender [sender] in an existing chat with two
    participants [a] and [b]: the recipient is [a] unless [a] is the sender,
    and then [b] (the sender is not required to be one of the two).  With a
    recipient that is not empty and not the sender, the chat gets the
    preview of the message, the sender and the time, the recipient is
    marked unread and the sender read, the other marks and the participants
    stay; every other chat stays; and one message goes to each push token of
    the recipient, titled with the sender's user name (or [New message]),
    with the preview as body and the sender as [recipientId] of its data. *)
Theorem notifyOnNewDM_two_party expo now users chats chatId msg chat a b sender :
  chats !! chatId = Some chat →
  participant_ids (c_participants chat) = [a; b] →
  m_senderId msg = Some sender → sender ≠ "" →
  (if decide (a = sender) then b else a) ≠ "" →
  (if decide (a = sender) then b else a) ≠ sender →
  (notifyOnNewDM expo now users chats chatId (Some msg)).1
  = <[chatId := {| c_participants := c_participants chat;
                   c_lastMessageText := Some (previewFromMessage msg);
                   c_lastMessageSenderId := Some sender;
                   c_lastMessageTimestamp := Some now;
                   c_unreadFor :=
                     <[sender := false]>
                       (<[(if decide (a = sender) then b else a) := true]>
                          (c_unreadFor chat)) |}]> chats
  ∧ pm_to <$> concat (notifyOnNewDM expo now users chats chatId (Some msg)).2
    = expoTokens (users !! (if decide (a = sender) then b else a))
  ∧ Forall (λ m, pm_title m = default "New message"
                                (JS.str_or_null (users !! sender ≫= u_username))
                 ∧ pm_body m = previewFromMessage msg
                 ∧ pm_data m = [("type", "dm"); ("chatId", chatId);
                                ("recipientId", sender)])
      (concat (notifyOnNewDM expo now users chats chatId (Some msg)).2).
Proof.
  intros Hchat Hp Hs Hne Hr Hrs. unfold notifyOnNewDM.
  unfold JS.str_or at 1. rewrite Hs. simpl.
  rewrite (eqb_false _ _ Hne). rewrite (eqb_false _ _ Hne).
  rewrite Hchat, Hp. simpl.
  assert (Hfind : (if negb (String.eqb a sender) then Some a
                   else if negb (String.eqb b sender) then Some b else None)
                  = Some (if decide (a = sender) then b else a)).
  { destruct (decide (a = sender)) as [->|Ha].
    - rewrite String.eqb_refl. simpl. by rewrite (eqb_false _ _ Hrs).
    - by rewrite (eqb_false _ _ Ha). }
  rewrite Hfind. rewrite str_or_null_Some by done.
  set (recipient := if decide (a = sender) then b else a) in *.
  destruct (sendExpoPush_messages expo (expoTokens (users !! recipient))
              (match JS.str_or_null (users !! sender ≫= u_username) with
               | Some name => name
               | None => "New message"
               end)
              (previewFromMessage msg)
              [("type", "dm"); ("chatId", chatId); ("recipientId", sender)])
    as (Hto & Hmsg).
  rewrite expoTokens_not_empty in Hto.
  destruct (expoTokens (users !! recipient)) as [|t ts] eqn:E.
  - split; [done|]. split; [done|]. constructor.
  - split; [done|]. split; [exact Hto|].
    eapply Forall_impl; [exact Hmsg|]. intros m (_ & -> & ? & ?).
    split; [|done]. by destruct (JS.str_or_null _).
Qed.

Lemma find_some_elem {A} (f : A → bool) (l : list A) (x : A) :
  List.find f l = Some x → x ∈ l ∧ f x = true.
Proof.
  induction l as [|y l IH]; simpl; [done|].
  destruct (f y) eqn:E.
  - intros [= ->]. split; [left | done].
  - intros [Hin Hf]%IH. split; [by right | done].
Qed.

(** X20. Whatever the message and the stored chats, [notifyOnNewDM] writes
    to no chat but the message's, creates no chat and changes no chat's
    participants; without a message, a sender, the chat or exactly two
    participants it writes and posts nothing; and every message it posts
    goes to a push token of a participant of the chat who is not the
    sender. *)
Theorem notifyOnNewDM_touches_only expo now users chats chatId msg :
  let r := notifyOnNewDM expo now users chats chatId msg in
  (∀ id, id ≠ chatId → r.1 !! id = chats !! id)
  ∧ (∀ chat', r.1 !! chatId = Some chat' →
       ∃ chat, chats !! chatId = Some chat
               ∧ c_participants chat' = c_participants chat)
  ∧ (r.1 !! chatId = None ↔ chats !! chatId = None)
  ∧ (msg = None ∨ JS.blank (msg ≫= m_senderId) = true ∨ chats !! chatId = None
     ∨ (∃ chat, chats !! chatId = Some chat
                ∧ length (participant_ids (c_participants chat)) ≠ 2%nat) →
     r = (chats, []))
  ∧ ∀ m, m ∈ concat r.2 →
      ∃ chat recipient,
        chats !! chatId = Some chat
        ∧ recipient ∈ participant_ids (c_participants chat)
        ∧ Some recipient ≠ msg ≫= m_senderId
        ∧ pm_to m ∈ expoTokens (users !! recipient).
Proof.
  intros r.
  assert (Hcases :
    r = (chats, [])
    ∨ ∃ mg sender chat recipient,
        msg = Some mg ∧ m_senderId mg = Some sender ∧ sender ≠ ""
        ∧ chats !! chatId = Some chat
        ∧ length (participant_ids (c_participants chat)) = 2%nat
        ∧ recipient ∈ participant_ids (c_participants chat)
        ∧ recipient ≠ sender
        ∧ ∃ chat', r.1 = <[chatId := chat']> chats
                   ∧ c_participants chat' = c_participants chat
                   ∧ ∃ title body data,
                       r.2 = if decide (expoTokens (users !! recipient) = [])
                             then []
                             else (sendExpoPush expo (expoTokens (users !! recipient))
                                     title body data).1).
  { subst r. unfold notifyOnNewDM.
    destruct msg as [mg|]; [|by left].
    unfold JS.str_or, JS.blank.
    destruct (m_senderId mg) as [sender|] eqn:Es; [|by left].
    destruct (String.eqb sender "") eqn:Ee; simpl; [by left|].
    rewrite Ee.
    destruct (chats !! chatId) as [chat|] eqn:Ec; [|by left].
    destruct (length _ =? 2)%nat eqn:El; simpl; [|by left].
    destruct (List.find _ _) as [recipient|] eqn:Ef; [|by left].
    unfold JS.str_or_null, JS.blank.
    destruct (String.eqb recipient "") eqn:Er; simpl; [by left|].
    apply find_some_elem in Ef as [Hin Hneq].
    right. exists mg, sender, chat, recipient.
    split; [done|]. split; [done|]. split; [by apply String.eqb_neq|].
    split; [done|]. split; [by apply Nat.eqb_eq|]. split; [done|].
    split; [apply String.eqb_neq; by destruct (String.eqb recipient sender)|].
    eexists. split; [|split; [|eexists _, _, _]].
    - by destruct (expoTokens (users !! recipient)).
    - done.
    - by destruct (expoTokens (users !! recipient)). }
  split; [|split; [|split; [|split]]].
  - intros id Hid. destruct Hcases as [->|(mg & sender & chat & recipient & _ & _ & _
      & _ & _ & _ & _ & chat' & -> & _)]; [done|].
    by rewrite lookup_insert_ne.
  - intros chat'. destruct Hcases as [->|(mg & sender & chat & recipient & _ & _ & _
      & Hc & _ & _ & _ & chat'' & -> & Hp & _)]; simpl.
    + intros H. by exists chat'.
    + rewrite lookup_insert_eq. intros [= <-]. by exists chat.
  - destruct Hcases as [->|(mg & sender & chat & recipient & _ & _ & _
      & Hc & _ & _ & _ & chat'' & -> & Hp & _)]; simpl; [done|].
    rewrite lookup_insert_eq, Hc. split; done.
  - intros Hno. destruct Hcases as [->|(mg & sender & chat & recipient & -> & Hs & Hne
      & Hc & Hl & _)]; [done|]. exfalso.
    destruct Hno as [?|[Hb|[?|(chat0 & Hc0 & Hl0)]]]; [done| |congruence|].
    + simpl in Hb. rewrite Hs in Hb. unfold JS.blank in Hb.
      by apply String.eqb_eq in Hb.
    + rewrite Hc in Hc0. by simplify_eq.
  - intros m Hm. destruct Hcases as [Hr|(mg & sender & chat & recipient & -> & Hs & Hne
      & Hc & Hl & Hin & Hrs & chat' & _ & _ & title & body & data & Hpush)].
    { rewrite Hr in Hm. by apply elem_of_nil in Hm. }
    exists chat, recipient. split; [done|]. split; [done|].
    split; [simpl; rewrite Hs; congruence|].
    rewrite Hpush in Hm. destruct (decide _) as [|_]; [by apply elem_of_nil in Hm|].
    destruct (sendExpoPush_messages expo (expoTokens (users !! recipient)) title body data)
      as (Hto & _).
    rewrite expoTokens_not_empty in Hto. rewrite <- Hto.
    apply list_elem_of_fmap. by exists m.
Qed.

Lemma notifyOnNewDM_two_party_witness :
  pm_to <$> concat
    (notifyOnNewDM (λ _, Some "unreachable") 5000%Z
       {[ "bob" := {| u_username := Some "Bob";
                      u_expoPushTokens := Some [Some "ExponentPushToken[b1]"] |} ]}
       {[ "c1" := {| c_participants := PObject [("alice", true); ("carol", false);
                                                ("bob", true)];
                     c_lastMessageText := None; c_lastMessageSenderId := None;
                     c_lastMessageTimestamp := None; c_unreadFor := ∅ |} ]}
       "c1"
       (Some {| m_senderId := Some "alice"; m_text := Some "  hello  ";
                m_mediaType := None; m_fileName := None |})).2
  = ["ExponentPushToken[b1]"].
Proof.
  destruct (notifyOnNewDM_two_party (λ _, Some "unreachable") 5000%Z
       {[ "bob" := {| u_username := Some "Bob";
                      u_expoPushTokens := Some [Some "ExponentPushToken[b1]"] |} ]}
       {[ "c1" := {| c_participants := PObject [("alice", true); ("carol", false);
                                                ("bob", true)];
                     c_lastMessageText := None; c_lastMessageSenderId := None;
                     c_lastMessageTimestamp := None; c_unreadFor := ∅ |} ]}
       "c1"
       {| m_senderId := Some "alice"; m_text := Some "  hello  ";
          m_mediaType := None; m_fileName := None |}
       {| c_participants := PObject [("alice", true); ("carol", false);
                                     ("bob", true)];
          c_lastMessageText := None; c_lastMessageSenderId := None;
          c_lastMessageTimestamp := None; c_unreadFor := ∅ |}
       "alice" "bob" "alice")
    as (_ & Hto & _); [done | by vm_compute | done | done | done | done |].
  etrans; [exact Hto|]. by vm_compute.
Defined.

Lemma substring_0_length (n : nat) (t : string) :
  (String.length (String.substring 0 n t) ≤ n)%nat.
Proof.
  revert t. induction n as [|n IH]; intros [|c t]; simpl; try lia.
  specialize (IH t). lia.
Qed.

Lemma substring_0_prefix (n : nat) (t : string) :
  String.prefix (String.substring 0 n t) t = true.
Proof.
  revert t. induction n as [|n IH]; intros [|c t]; simpl; try done.
  destruct (ascii_dec c c); [apply IH | done].
Qed.

Lemma substring_0_not_empty (n : nat) (t : string) :
  t ≠ "" → String.substring 0 (S n) t ≠ "".
Proof. by destruct t. Qed.

(** X21. The preview of a message is never empty.  For a text that is not
    blank it is the start of the trimmed text, at most 140 characters long;
    for any other message it does not depend on the text. *)
Theorem previewFromMessage_preview msg :
  previewFromMessage msg ≠ ""
  ∧ (JS.trim (default "" (m_text msg)) ≠ "" →
     String.prefix (previewFromMessage msg) (JS.trim (default "" (m_text msg))) = true
     ∧ (String.length (previewFromMessage msg) ≤ 140)%nat)
  ∧ (JS.trim (default "" (m_text msg)) = "" →
     previewFromMessage msg
     = previewFromMessage {| m_senderId := None; m_text := None;
                             m_mediaType := m_mediaType msg;
                             m_fileName := m_fileName msg |}).
Proof.
  unfold previewFromMessage. simpl.
  change (JS.trim "") with "". simpl.
  destruct (String.eqb (JS.trim _) "") eqn:E; simpl.
  - apply String.eqb_eq in E. split; [|split; [by rewrite E|done]].
    repeat case_bool_decide; try done.
  - apply String.eqb_neq in E. split; [by apply substring_0_not_empty|].
    split; [intros _|done].
    split; [apply substring_0_prefix | apply substring_0_length].
Qed.

(** ** Guest checkout: creating the order *)

Lemma fallback_supported : PAYPAL_FALLBACK_CCY ∈ PAYPAL_SUPPORTED.
Proof. apply (bool_decide_unpack _). by vm_compute. Qed.

(** X22. Whatever the request and the answers of the network, the guest
    checkout posts at most one order to the gateway; the order's currency is
    one the gateway supports and its [custom_id] is the recipient of the
    request.  It answers 400 without any call, or 500, or the created order
    with the currency and amount that were posted and the [approve] links
    only; and it asks for a conversion only when the currency of the request
    is not supported. *)
Theorem guestCreate_posts env token create net body :
  let r := guestCreate env token create net body in
  (length r.1.2 ≤ 1)%nat
  ∧ (∀ p, p ∈ r.1.2 →
       op_currency_code p ∈ PAYPAL_SUPPORTED
       ∧ gc_recipientUid body = Some (op_custom_id p) ∧ op_custom_id p ≠ "")
  ∧ (∀ n, r.2 = GuestCreateError n →
       (n = 400%nat ∧ r.1 = ([], [])) ∨ n = 500%nat)
  ∧ (∀ id links c a, r.2 = GuestCreated id links c a →
       (∃ p tok order, r.1.2 = [p] ∧ op_currency_code p = c ∧ op_value p = a
                       ∧ token = Ok tok
                       ∧ create tok p = Reply true (Some order)
                       ∧ id = co_id order)
       ∧ Forall (λ l, l.1 = "approve") links)
  ∧ (r.1.1 ≠ [] →
     JS.toUpperCase (JS.str_or (gc_currency body) (getBaseCurrency env))
     ∉ PAYPAL_SUPPORTED).
Proof.
  intros r. subst r. unfold guestCreate.
  destruct (JS.str_or_null (gc_recipientUid body)) as [recipientUid|] eqn:Er;
    [|simpl; split; [lia|]; split; [by intros ? ?%elem_of_nil|];
      split; [intros ? [= <-]; by left|]; by split].
  assert (Hrec : gc_recipientUid body = Some recipientUid ∧ recipientUid ≠ "").
  { unfold JS.str_or_null, JS.blank in Er.
    destruct (gc_recipientUid body) as [u|]; [|done].
    destruct (String.eqb u "") eqn:E; [done|].
    apply String.eqb_neq in E. by simplify_eq. }
  destruct (gc_amount body) as [amount|];
    [|simpl; split; [lia|]; split; [by intros ? ?%elem_of_nil|];
      split; [intros ? [= <-]; by left|]; by split].
  destruct (JS.falsy amount || JS.isNaN amount);
    [simpl; split; [lia|]; split; [by intros ? ?%elem_of_nil|];
      split; [intros ? [= <-]; by left|]; by split|].
  set (inputCurrency := JS.toUpperCase _).
  assert (Hcur : ∀ calls c a,
    (if bool_decide (inputCurrency ∈ PAYPAL_SUPPORTED)
     then ([], Ok (inputCurrency, amount))
     else ((fxConvert env net amount inputCurrency PAYPAL_FALLBACK_CCY).1,
           bind (fxConvert env net amount inputCurrency PAYPAL_FALLBACK_CCY).2
             (λ v, Ok (PAYPAL_FALLBACK_CCY, v)))) = (calls, Ok (c, a)) →
    c ∈ PAYPAL_SUPPORTED).
  { intros calls c a. case_bool_decide as Hin.
    - by intros [= _ <- _].
    - destruct (fxConvert _ _ _ _ _) as [cs [v|e]]; simpl; [|done].
      intros [= _ <- _]. apply fallback_supported. }
  cbv zeta.
  destruct (if bool_decide (inputCurrency ∈ PAYPAL_SUPPORTED) then _ else _)
    as [calls [[c a]|e]] eqn:Econv.
  - assert (Hc := Hcur _ _ _ eq_refl).
    assert (Hcalls : calls ≠ [] → inputCurrency ∉ PAYPAL_SUPPORTED).
    { intros Hne Hin. rewrite bool_decide_eq_true_2 in Econv by done.
      by simplify_eq. }
    destruct token as [tok|e]; simpl.
    + split; [lia|]. split.
      { intros p [->|[]%elem_of_nil]%elem_of_cons. simpl. by destruct Hrec. }
      split.
      { intros n. repeat case_match; try done; intros [= <-]; by right. }
      split; [|done].
      intros id links c' a'.
      destruct (create tok _) as [m|[|] [order|]] eqn:Ecreate; try done.
      intros [= <- <- <- <-].
      split; [eexists _, tok, order; by repeat split|].
      apply Forall_forall. by intros l [? _]%list_elem_of_filter.
    + split; [lia|]. split; [by intros ? ?%elem_of_nil|].
      split; [intros ? [= <-]; by right|]. by split.
  - simpl. split; [lia|]. split; [by intros ? ?%elem_of_nil|].
    split; [intros ? [= <-]; by right|]. split; [done|].
    intros Hne Hin. rewrite bool_decide_eq_true_2 in Econv by done. by simplify_eq.
Qed.

(** X23. A guest request with a recipient and an amount that is a number
    other than 0 (it may be negative) goes on to the gateway.  In a
    supported currency the order posted carries that currency and the amount
    as they came, and no conversion is asked for.  In any other currency the
    amount is converted to USD: the order posted carries USD and what
    [fxConvert] returned, and when [fxConvert] throws nothing is posted and
    the answer is 500. *)
Theorem guestCreate_currency env tok create net body recipient amount :
  gc_recipientUid body = Some recipient → recipient ≠ "" →
  gc_amount body = Some amount → JS.falsy amount = false →
  let cur := JS.toUpperCase (JS.str_or (gc_currency body) (getBaseCurrency env)) in
  let fx := fxConvert env net amount cur PAYPAL_FALLBACK_CCY in
  let post c a :=
    {| op_currency_code := c; op_value := toFixed2 a; op_custom_id := recipient;
       op_description := JS.str_or (gc_description body) "Guest payment";
       op_return_url := gc_returnUrl body; op_cancel_url := gc_cancelUrl body |} in
  (cur ∈ PAYPAL_SUPPORTED →
   (guestCreate env (Ok tok) create net body).1 = ([], [post cur amount]))
  ∧ (cur ∉ PAYPAL_SUPPORTED → ∀ v, fx.2 = Ok v →
     (guestCreate env (Ok tok) create net body).1 = (fx.1, [post "USD" v]))
  ∧ (cur ∉ PAYPAL_SUPPORTED → ∀ e, fx.2 = Throw e →
     guestCreate env (Ok tok) create net body = (fx.1, [], GuestCreateError 500)).
Proof.
  intros Hr Hne Ha Hf cur fx post. unfold guestCreate.
  rewrite Hr, Ha. rewrite str_or_null_Some by done.
  assert (Hnan : JS.isNaN amount = false).
  { unfold JS.falsy in Hf. by apply orb_false_iff in Hf as [? _]. }
  rewrite Hf, Hnan. simpl. fold cur.
  split; [|split].
  - intros Hin. by rewrite bool_decide_eq_true_2.
  - intros Hin v Hv. rewrite bool_decide_eq_false_2 by done.
    fold fx. by rewrite Hv.
  - intros Hin e He. rewrite bool_decide_eq_false_2 by done.
    fold fx. by rewrite He.
Qed.

Lemma guestCreate_currency_witness :
  (guestCreate Scenario.env (Ok "token") (λ _ _, FetchFails "down") Scenario.offline
     {| gc_recipientUid := Some "bob"; gc_amount := Some (-5)%float;
        gc_currency := Some "eur"; gc_returnUrl := None; gc_cancelUrl := None;
        gc_description := None |}).1
  = ([], [{| op_currency_code := "EUR"; op_value := toFixed2 (-5)%float;
             op_custom_id := "bob"; op_description := "Guest payment";
             op_return_url := None; op_cancel_url := None |}]).
Proof.
  destruct (guestCreate_currency Scenario.env "token" (λ _ _, FetchFails "down")
              Scenario.offline
              {| gc_recipientUid := Some "bob"; gc_amount := Some (-5)%float;
                 gc_currency := Some "eur"; gc_returnUrl := None;
                 gc_cancelUrl := None; gc_description := None |}
              "bob" (-5)%float) as (H & _); [done | done | done | reflexivity |].
  apply H. apply (bool_decide_unpack _). by vm_compute.
Defined.

(** ** The community list *)

Lemma filter_split {A} (f : A → bool) (l : list A) :
  List.filter f l ++ List.filter (λ x, negb (f x)) l ≡ₚ l.
Proof.
  induction l as [|x l IH]; simpl; [done|].
  destruct (f x); simpl; [by rewrite IH|].
  rewrite <- Permutation_middle. by rewrite IH.
Qed.

Lemma filter_all {A} (f : A → bool) (l : list A) :
  Forall (λ x, f x = true) l → List.filter f l = l.
Proof. induction 1 as [|x l Hx _ IH]; simpl; [done|]. by rewrite Hx, IH. Qed.

Lemma filter_none {A} (f : A → bool) (l : list A) :
  Forall (λ x, f x = false) l → List.filter f l = [].
Proof. induction 1 as [|x l Hx _ IH]; simpl; [done|]. by rewrite Hx. Qed.

Lemma filter_Forall {A} (f : A → bool) (l : list A) :
  Forall (λ x, f x = true) (List.filter f l).
Proof.
  induction l as [|x l IH]; simpl; [constructor|].
  destruct (f x) eqn:E; [by constructor | done].
Qed.

Lemma filter_sublist {A} (f : A → bool) (l : list A) :
  List.filter f l `sublist_of` l.
Proof.
  induction l as [|x l IH]; simpl; [constructor|].
  destruct (f x); by constructor.
Qed.

Lemma filter_keeps_Forall {A} (P : A → Prop) (g : A → bool) (l : list A) :
  Forall P l → Forall P (List.filter g l).
Proof.
  induction 1 as [|x l Hx _ IH]; simpl; [constructor|].
  destruct (g x); [by constructor | done].
Qed.

(** X24. The communities shown are those that match the search text and
    the category, each as often as it is in the list: the split by city
    loses and repeats none.  They come as the local ones followed by the
    others, each group in the order of the list (without a city there is no
    local group).  Filtering what is shown again, with the same search,
    category and city, changes nothing. *)
Theorem filteredCommunities_shown communities q cat city :
  let matches c :=
    Client.searchMatch (Client.toLowerCase q) c && Client.categoryMatch cat c in
  let shown := Client.filteredCommunities communities q cat city in
  shown ≡ₚ List.filter matches communities
  ∧ (∃ locals rest,
       shown = locals ++ rest
       ∧ locals `sublist_of` communities ∧ rest `sublist_of` communities
       ∧ match JS.str_or_null city with
         | Some c =>
             Forall (λ x, Client.isLocal (Client.toLowerCase c) x = true) locals
             ∧ Forall (λ x, Client.isLocal (Client.toLowerCase c) x = false) rest
         | None => locals = []
         end)
  ∧ Client.filteredCommunities shown q cat city = shown.
Proof.
  intros matches shown. subst shown. unfold Client.filteredCommunities.
  fold matches. set (filtered := List.filter matches communities).
  assert (Hsub : filtered `sublist_of` communities) by apply filter_sublist.
  assert (Hall : Forall (λ x, matches x = true) filtered) by apply filter_Forall.
  destruct (JS.str_or_null city) as [c|].
  - set (loc := Client.isLocal (Client.toLowerCase c)).
    assert (Hl : Forall (λ x, loc x = true) (List.filter loc filtered))
      by apply filter_Forall.
    assert (Hr : Forall (λ x, loc x = false)
                   (List.filter (λ x, negb (loc x)) filtered)).
    { eapply Forall_impl; [apply (filter_Forall (λ x, negb (loc x)))|].
      intros x. simpl. by destruct (loc x). }
    split; [apply filter_split|]. split.
    + eexists _, _. split; [done|].
      split; [etrans; [apply filter_sublist | done]|].
      split; [etrans; [apply filter_sublist | done]|]. by split.
    + rewrite (filter_all matches).
      2:{ apply Forall_app. split; by apply filter_keeps_Forall. }
      rewrite !List.filter_app.
      rewrite (filter_all loc _ Hl), (filter_none loc _ Hr).
      rewrite (filter_none (λ x, negb (loc x)) (List.filter loc filtered)).
      2:{ eapply Forall_impl; [exact Hl|]. by intros x ->. }
      rewrite (filter_all (λ x, negb (loc x))).
      2:{ eapply Forall_impl; [exact Hr|]. by intros x ->. }
      by rewrite app_nil_r.
  - split; [done|]. split.
    + exists [], filtered. split; [done|]. split; [apply sublist_nil_l|]. by split.
    + by apply filter_all.
Qed.

Lemma string_compare_trans (a b c : string) :
  String.compare a b ≠ Gt → String.compare b c ≠ Gt → String.compare a c ≠ Gt.
Proof.
  revert b c. induction a as [|x a IH]; intros [|y b] [|z c]; simpl; try done.
  unfold Ascii.compare.
  destruct (N.compare_spec (N_of_ascii x) (N_of_ascii y)) as [Exy|Exy|Exy];
    destruct (N.compare_spec (N_of_ascii y) (N_of_ascii z)) as [Eyz|Eyz|Eyz];
    try done;
    destruct (N.compare_spec (N_of_ascii x) (N_of_ascii z)) as [Exz|Exz|Exz];
    try done; try lia.
  apply IH.
Qed.

Global Instance code_order_trans : Transitive Client.code_order.
Proof.
  intros a b c. unfold Client.code_order, String.leb. intros Hab Hbc.
  pose proof (string_compare_trans a b c) as H.
  destruct (String.compare a b), (String.compare b c), (String.compare a c);
    try done; exfalso; by apply H.
Qed.

Lemma elem_of_concat {A} (x : A) (ls : list (list A)) :
  x ∈ concat ls ↔ ∃ l, l ∈ ls ∧ x ∈ l.
Proof.
  induction ls as [|l ls IH]; simpl.
  - split; [by intros ?%elem_of_nil | by intros (? & ?%elem_of_nil & _)].
  - rewrite elem_of_app, IH. split.
    + intros [H|(l' & H1 & H2)]; [exists l; split; [left|done]|].
      exists l'. split; [by right | done].
    + intros (l' & [->|H1]%elem_of_cons & H2); [by left|].
      right. by exists l'.
Qed.

Global Instance code_order_total : Total Client.code_order.
Proof. intros a b. unfold Client.code_order. apply String.leb_total. Qed.

(** X25. The category buttons list every category of every community
    document, each once, in ascending order of character codes, and nothing
    else. *)
Theorem allCategories_buttons (docs : list (list string)) :
  (∀ c, c ∈ Client.allCategories docs ↔ ∃ d, d ∈ docs ∧ c ∈ d)
  ∧ NoDup (Client.allCategories docs)
  ∧ Sorted Client.code_order (Client.allCategories docs)
  ∧ ∀ i j a b, (i < j)%nat →
      Client.allCategories docs !! i = Some a →
      Client.allCategories docs !! j = Some b →
      String.ltb a b = true.
Proof.
  unfold Client.allCategories.
  set (l := merge_sort Client.code_order (remove_dups (concat docs))).
  assert (Hperm : l ≡ₚ remove_dups (concat docs)) by apply merge_sort_Permutation.
  assert (Hnd : NoDup l) by (rewrite Hperm; apply NoDup_remove_dups).
  assert (Hs : Sorted Client.code_order l) by apply Sorted_merge_sort, _.
  split; [|split; [done|split; [done|]]].
  - intros c. rewrite Hperm, elem_of_remove_dups. by rewrite elem_of_concat.
  - apply (Sorted_StronglySorted _) in Hs.
    intros i j a b Hij Hi Hj.
    assert (Hle : Client.code_order a b).
    { clear Hperm Hnd. revert i j Hij Hi Hj.
      induction Hs as [|x l' Hs IH Hall]; intros i j Hij Hi Hj; [done|].
      destruct i as [|i], j as [|j]; simpl in *; try lia.
      - simplify_eq. rewrite Forall_forall in Hall.
        apply Hall. by eapply list_elem_of_lookup_2.
      - eapply (IH i j); [lia | done | done]. }
    assert (Hne : a ≠ b).
    { intros ->. assert (i = j) by by eapply NoDup_lookup. lia. }
    unfold Client.code_order in Hle.
    unfold String.leb in Hle. unfold String.ltb.
    destruct (String.compare a b) eqn:E; [|done|done].
    by apply String.compare_eq_iff in E.
Qed.

(** ** The categories of the edit screen *)

(** A category as [handleSave] stores it: not empty, without a comma,
    without white space around it, in lower case. *)
Definition stored_category (c : string) : Prop :=
  c ≠ "" ∧ Client.includes c "," = false ∧ JS.trim c = c ∧ Client.toLowerCase c = c.

Lemma includes_sep_cons (sep a : ascii) (s : string) :
  Client.includes (String a s) (String sep "")
  = Ascii.eqb a sep || Client.includes s (String sep "").
Proof.
  change (Client.includes (String a s) (String sep ""))
    with (match ascii_dec sep a with
          | left _ => String.prefix "" s
          | right _ => false
          end || Client.includes s (String sep "")).
  destruct (ascii_dec sep a) as [<-|Hne].
  - rewrite Ascii.eqb_refl. by destruct s.
  - by rewrite (proj2 (Ascii.eqb_neq a sep)) by congruence.
Qed.

Lemma includes_sep_app (sep : ascii) (s t : string) :
  Client.includes (s ++ t) (String sep "")
  = Client.includes s (String sep "") || Client.includes t (String sep "").
Proof.
  induction s as [|a s IH]; [done|].
  change (String a s ++ t)%string with (String a (s ++ t)).
  rewrite !includes_sep_cons, IH. by rewrite orb_assoc.
Qed.

Lemma string_app_assoc (s t u : string) : ((s ++ t) ++ u = s ++ (t ++ u))%string.
Proof.
  induction s as [|a s IH]; [done|].
  change (String a ((s ++ t) ++ u) = String a (s ++ (t ++ u)))%string.
  by rewrite IH.
Qed.

Lemma split_sep_single (sep : ascii) (c : string) :
  Client.includes c (String sep "") = false → Client.split sep c = [c].
Proof.
  induction c as [|a c IH]; [done|].
  rewrite includes_sep_cons. intros [Ha Hc]%orb_false_iff.
  simpl. rewrite Ha. by rewrite IH.
Qed.

Lemma split_sep_app (sep : ascii) (c rest : string) :
  Client.includes c (String sep "") = false →
  Client.split sep (c ++ String sep rest) = c :: Client.split sep rest.
Proof.
  induction c as [|a c IH].
  - intros _. simpl. by rewrite Ascii.eqb_refl.
  - rewrite includes_sep_cons. intros [Ha Hc]%orb_false_iff.
    simpl. rewrite Ha. by rewrite IH.
Qed.

Lemma split_sep_pieces (sep : ascii) (s : string) :
  Forall (λ w, Client.includes w (String sep "") = false) (Client.split sep s).
Proof.
  induction s as [|a s IH]; simpl; [by constructor|].
  destruct (Ascii.eqb a sep) eqn:Ea; [by constructor|].
  destruct (Client.split sep s) as [|w ws];
    [by repeat constructor; rewrite includes_sep_cons, Ea|].
  apply Forall_cons in IH as [Hw Hws]. constructor; [|done].
  by rewrite includes_sep_cons, Ea.
Qed.

Lemma split_comma_joined (p c : string) (cs : list string) :
  Client.includes p "," = false →
  Forall (λ w, Client.includes w "," = false) (c :: cs) →
  Client.split "," (p ++ String.concat ", " (c :: cs))
  = (p ++ c)%string :: (String " " <$> cs).
Proof.
  revert p c. induction cs as [|c' cs IH]; intros p c Hp Hc.
  - simpl. apply Forall_cons in Hc as [Hc _].
    apply split_sep_single. by rewrite includes_sep_app, Hp, Hc.
  - apply Forall_cons in Hc as [Hc Hcs].
    change (String.concat ", " (c :: c' :: cs))
      with (c ++ String "," (String " " (String.concat ", " (c' :: cs))))%string.
    rewrite <- string_app_assoc. rewrite split_sep_app
      by by rewrite includes_sep_app, Hp, Hc.
    f_equal. apply (IH " " c'); done.
Qed.

Lemma lower_ascii_idemp (c : ascii) :
  Client.lower_ascii (Client.lower_ascii c) = Client.lower_ascii c.
Proof. by destruct c as [[] [] [] [] [] [] [] []]. Qed.

Lemma lower_ascii_space (c : ascii) :
  JS.is_space (Client.lower_ascii c) = JS.is_space c.
Proof. by destruct c as [[] [] [] [] [] [] [] []]. Qed.

Lemma lower_ascii_comma (c : ascii) :
  Ascii.eqb (Client.lower_ascii c) "," = Ascii.eqb c ",".
Proof. by destruct c as [[] [] [] [] [] [] [] []]. Qed.

Lemma toLowerCase_idemp (s : string) :
  Client.toLowerCase (Client.toLowerCase s) = Client.toLowerCase s.
Proof. induction s as [|c s IH]; simpl; [done|]. by rewrite lower_ascii_idemp, IH. Qed.

Lemma toLowerCase_empty (s : string) :
  String.eqb (Client.toLowerCase s) "" = String.eqb s "".
Proof. by destruct s. Qed.

Lemma toLowerCase_comma (s : string) :
  Client.includes (Client.toLowerCase s) "," = Client.includes s ",".
Proof.
  induction s as [|c s IH]; [done|].
  change (Client.toLowerCase (String c s))
    with (String (Client.lower_ascii c) (Client.toLowerCase s)).
  by rewrite !includes_sep_cons, lower_ascii_comma, IH.
Qed.

Lemma toLowerCase_trim_start (s : string) :
  JS.trim_start (Client.toLowerCase s) = Client.toLowerCase (JS.trim_start s).
Proof.
  induction s as [|c s IH]; simpl; [done|].
  rewrite lower_ascii_space. by destruct (JS.is_space c).
Qed.

Lemma toLowerCase_trim_end (s : string) :
  JS.trim_end (Client.toLowerCase s) = Client.toLowerCase (JS.trim_end s).
Proof.
  induction s as [|c s IH]; simpl; [done|].
  rewrite lower_ascii_space, IH, toLowerCase_empty.
  by destruct (JS.is_space c && String.eqb (JS.trim_end s) "").
Qed.

Lemma trim_start_comma (s : string) :
  Client.includes s "," = false → Client.includes (JS.trim_start s) "," = false.
Proof.
  induction s as [|c s IH]; [done|].
  intros H. simpl JS.trim_start. destruct (JS.is_space c); [|done].
  rewrite includes_sep_cons in H. apply orb_false_iff in H as [_ H]. by apply IH.
Qed.

Lemma trim_end_comma (s : string) :
  Client.includes s "," = false → Client.includes (JS.trim_end s) "," = false.
Proof.
  induction s as [|c s IH]; [done|].
  rewrite includes_sep_cons. intros [Hc Hs]%orb_false_iff.
  simpl JS.trim_end. destruct (_ && _); [done|].
  rewrite includes_sep_cons, Hc. by apply IH.
Qed.

Lemma trim_end_idemp (s : string) : JS.trim_end (JS.trim_end s) = JS.trim_end s.
Proof.
  induction s as [|c s IH]; simpl; [done|].
  destruct (JS.is_space c && String.eqb (JS.trim_end s) "") eqn:E; [done|].
  simpl. by rewrite IH, E.
Qed.

(** A string that does not start with white space. *)
Definition starts_clean (s : string) : Prop :=
  match s with
  | EmptyString => True
  | String c _ => JS.is_space c = false
  end.

Lemma trim_start_clean (s : string) : starts_clean (JS.trim_start s).
Proof.
  induction s as [|c s IH]; simpl; [done|].
  by destruct (JS.is_space c) eqn:E.
Qed.

Lemma trim_start_of_clean (s : string) : starts_clean s → JS.trim_start s = s.
Proof. destruct s as [|c s]; simpl; [done|]. by intros ->. Qed.

Lemma trim_end_clean (s : string) : starts_clean s → starts_clean (JS.trim_end s).
Proof.
  destruct s as [|c s]; simpl; [done|]. intros E. by rewrite E.
Qed.

Lemma trim_idemp (s : string) : JS.trim (JS.trim s) = JS.trim s.
Proof.
  unfold JS.trim.
  rewrite (trim_start_of_clean (JS.trim_end _))
    by apply trim_end_clean, trim_start_clean.
  apply trim_end_idemp.
Qed.

Lemma trim_space_cons (s : string) : JS.trim (String " " s) = JS.trim s.
Proof. done. Qed.

Lemma filter_not_empty (cs : list string) :
  Forall (λ c, c ≠ "") cs → List.filter (λ c, negb (String.eqb c "")) cs = cs.
Proof.
  intros H. apply filter_all. eapply Forall_impl; [exact H|].
  intros c Hc. simpl. by rewrite eqb_false.
Qed.

(** X26. What [handleSave] stores for the categories typed is a list of
    stored categories: none is empty, has a comma or white space around
    it, or an upper-case letter.  A list of such categories, shown as a
    text by the edit screen and saved without a change, is stored again as
    it was; so saving twice stores what saving once does. *)
Theorem categories_round_trip :
  (∀ text, Forall stored_category (Client.parseCategories text))
  ∧ (∀ cs, Forall stored_category cs →
           Client.parseCategories (Client.categoriesText cs) = cs)
  ∧ ∀ text, Client.parseCategories
              (Client.categoriesText (Client.parseCategories text))
            = Client.parseCategories text.
Proof.
  assert (Hstored : ∀ text, Forall stored_category (Client.parseCategories text)).
  { intros text. unfold Client.parseCategories.
    apply Forall_fmap, Forall_forall. intros w Hw.
    apply list_elem_of_In, List.filter_In in Hw as [Hin Hne].
    apply list_elem_of_In, list_elem_of_fmap in Hin as (p & -> & Hp).
    assert (Hcomma : Client.includes p "," = false).
    { pose proof (split_sep_pieces "," text) as H. rewrite Forall_forall in H.
      by apply H. }
    simpl. unfold stored_category. split; [|split; [|split]].
    - destruct (JS.trim p); [done|done].
    - rewrite toLowerCase_comma. unfold JS.trim.
      by apply trim_end_comma, trim_start_comma.
    - unfold JS.trim at 1. rewrite toLowerCase_trim_start, toLowerCase_trim_end.
      fold (JS.trim (JS.trim p)). by rewrite trim_idemp.
    - apply toLowerCase_idemp. }
  assert (Hround : ∀ cs, Forall stored_category cs →
            Client.parseCategories (Client.categoriesText cs) = cs).
  { intros [|c cs] Hcs; [done|].
    unfold Client.parseCategories, Client.categoriesText.
    assert (Hsplit : Client.split "," (String.concat ", " (c :: cs))
                     = c :: (String " " <$> cs)).
    { apply (split_comma_joined "" c cs eq_refl).
      eapply Forall_impl; [exact Hcs|]. by intros w (_ & ? & _). }
    rewrite Hsplit. clear Hsplit.
    rewrite fmap_cons, <- list_fmap_compose.
    assert (Htrim : JS.trim c :: (JS.trim ∘ String " " <$> cs) = c :: cs).
    { apply Forall_cons in Hcs as [(_ & _ & -> & _) Hcs]. f_equal.
      induction Hcs as [|w ws (_ & _ & Hw & _) _ IH]; [done|].
      rewrite fmap_cons. simpl. rewrite trim_space_cons, Hw. by rewrite IH. }
    rewrite Htrim. rewrite filter_not_empty
      by (eapply Forall_impl; [exact Hcs|]; by intros w (? & _)).
    clear Htrim. induction Hcs as [|w ws (_ & _ & _ & Hw) _ IH]; [done|].
    rewrite fmap_cons. by rewrite Hw, IH. }
  split; [exact Hstored|]. split; [exact Hround|].
  intros text. apply Hround, Hstored.
Qed.

Lemma toUpperCase_length (s : string) :
  String.length (JS.toUpperCase s) = String.length s.
Proof. induction s as [|c s IH]; simpl; [done|]. by rewrite IH. Qed.

(** X27. For a community whose name is of ASCII characters: the initials
    shown when it has no logo are at most two characters, in upper case.  A
    name of one word gives the first letter of the word; a name whose first
    word is followed by one space and a second word gives the first letters
    of the two words, whatever follows.  (For other names the bound does
    not hold: JavaScript's [toUpperCase] turns [ß] into [SS].) *)
Theorem initials_shown name :
  Client.is_ascii name = true →
  (String.length (Client.initials name) ≤ 2)%nat
  ∧ JS.toUpperCase (Client.initials name) = Client.initials name
  ∧ (∀ a w, name = String a w → Client.includes name " " = false →
            Client.initials name = String (JS.upper_ascii a) "")
  ∧ (∀ a w b rest,
       name = (String a w ++ String " " (String b rest))%string →
       Client.includes (String a w) " " = false → b ≠ " "%char →
       Client.initials name
       = String (JS.upper_ascii a) (String (JS.upper_ascii b) "")).
Proof.
  intros _. split; [|split; [|split]].
  - unfold Client.initials. rewrite toUpperCase_length. apply substring_0_length.
  - apply toUpperCase_idemp.
  - intros a w -> Hw. unfold Client.initials.
    by rewrite (split_sep_single " " _ Hw).
  - intros a w b rest -> Hw Hb. unfold Client.initials.
    rewrite (split_sep_app " " _ _ Hw).
    assert (∃ w' ws, Client.split " " (String b rest) = String b w' :: ws)
      as (w' & ws & ->).
    { simpl. rewrite (proj2 (Ascii.eqb_neq b " ") Hb).
      destruct (Client.split " " rest) as [|w' ws]; by eexists _, _. }
    rewrite !fmap_cons.
    assert (Hc : ∀ tl, String.concat "" (String a "" :: String b "" :: tl)
                       = String a (String b (String.concat "" tl)))
      by (intros [|]; reflexivity).
    rewrite Hc. simpl. by destruct (String.concat "" _).
Qed.

Lemma initials_shown_witness :
  Client.initials "dayly wallet users" = "DW"
  ∧ (String.length (Client.initials "dayly wallet users") ≤ 2)%nat.
Proof.
  destruct (initials_shown "dayly wallet users" eq_refl) as (Hlen & _ & _ & Htwo).
  split; [|exact Hlen].
  by apply (Htwo "d"%char "ayly" "w"%char "allet users").
Defined.

(** ** The two capture routes on a capture without an amount *)

(** X28. When the gateway reports an order as completed but its answer
    holds no capture, the two routes differ.  The signed-in capture throws
    [Missing capture amount] and leaves the store as it was.  The guest
    capture goes on with an amount of 0 in USD: when the conversion of 0
    to the base currency gives [credit], it answers success, sets the
    recipient's balance to the balance read plus [credit] and logs a
    [TOP_UP] entry with gross amount 0 and no capture id. *)
Theorem capture_missing_amount env gw net now s uid orderId token body credit :
  uid ≠ "" → orderId ≠ "" →
  gw_token gw = Ok token →
  gw_capture gw token orderId = Reply true (Some body) →
  cb_status body = Some "COMPLETED" →
  cb_custom_id body = Some uid →
  cb_capture body = None →
  (if String.eqb "USD" (getBaseCurrency env) then Ok 0%float
   else (fxConvert env net 0 "USD" (getBaseCurrency env)).2) = Ok credit →
  capturePayPalOrder env gw net now s (Some uid) orderId
  = (Throw (HttpsError internal "Missing capture amount"), s)
  ∧ ∃ s' entry,
      guestCapture env gw net now s orderId = (GuestOk (getBaseCurrency env), s')
      ∧ (wallets s' !! uid) ≫= w_balance
        = Some (PrimFloat.add (snap_balance (wallets s !! uid)) credit)
      ∧ txCollection s' uid
        = <[auto_id (txCollection s uid) := entry]> (txCollection s uid)
      ∧ tx_type entry = TOP_UP ∧ tx_grossAmount entry = Some 0%float
      ∧ tx_grossCurrency entry = Some "USD" ∧ tx_captureId entry = None
      ∧ tx_creditAmount entry = Some credit ∧ tx_source entry = Some "GUEST".
Proof.
  intros Hu Ho Htok Hrep Hst Hcust Hcap Hconv. split.
  - unfold capturePayPalOrder. rewrite uidOrThrow_Some by done. simpl.
    rewrite (eqb_false orderId "") by done.
    rewrite Htok. simpl. rewrite Hrep. simpl.
    rewrite Hst. rewrite bool_decide_eq_true_2 by done. simpl.
    by rewrite Hcap.
  - unfold guestCapture.
    rewrite (eqb_false orderId "") by done.
    rewrite Htok, Hrep, Hst, Hcap, Hcust.
    rewrite bool_decide_eq_true_2 by done. rewrite str_or_null_Some by done.
    cbn -[String.eqb fxConvert JS.toUpperCase].
    change (JS.toUpperCase "USD") with "USD". rewrite Hconv.
    unfold runTransaction, capture_tx.
    eexists _, _. split; [reflexivity|].
    split; [|split].
    + autorewrite with store. by rewrite lookup_insert_eq.
    + autorewrite with store. by rewrite decide_True.
    + by repeat split.
Qed.

Lemma capture_missing_amount_witness :
  let env := {| APP_BASE_CURRENCY := Some "usd"; APP_PLATFORM_FEE_RATE := None;
                FX_API_KEY := None |} in
  let gw := {| gw_token := Ok "token";
               gw_capture := λ _ _, Reply true (Some {| cb_status := Some "COMPLETED";
                                                        cb_custom_id := Some "bob";
                                                        cb_capture := None |}) |} in
  capturePayPalOrder env gw Scenario.offline 2000%Z Scenario.empty (Some "bob") "ORDER-9"
  = (Throw (HttpsError internal "Missing capture amount"), Scenario.empty)
  ∧ ∃ s', guestCapture env gw Scenario.offline 2000%Z Scenario.empty "ORDER-9"
          = (GuestOk "USD", s')
          ∧ (wallets s' !! "bob") ≫= w_balance = Some 0%float.
Proof.
  intros env gw.
  destruct (capture_missing_amount env gw Scenario.offline 2000%Z Scenario.empty
              "bob" "ORDER-9" "token"
              {| cb_status := Some "COMPLETED"; cb_custom_id := Some "bob";
                 cb_capture := None |} 0%float)
    as [HA (s' & entry & HG & Hbal & _)];
    [done | done | reflexivity | reflexivity | reflexivity | reflexivity
    | reflexivity | reflexivity |].
  split; [exact HA|]. exists s'. split; [exact HG|]. by rewrite Hbal.
Defined.

(** ** A settlement shows up first in the list of transactions *)

Global Instance newer_first_trans : Transitive newer_first.
Proof.
  intros a b c. unfold newer_first.
  intros [H1|[E1 L1]] [H2|[E2 L2]]; [left; lia | left; lia | left; lia |].
  right. split; [lia|]. by apply (code_order_trans c.1 b.1 a.1).
Qed.

(** An entry written under a new id and later than every entry of the
    ledger is the first of the ordered ledger. *)
Lemma orderByCreatedAtDesc_newest (coll : gmap string TxDoc) (id : string) (e : TxDoc) :
  (∀ k d, coll !! k = Some d → (tx_createdAt d < tx_createdAt e)%Z) →
  orderByCreatedAtDesc (<[id := e]> coll) !! 0%nat = Some (id, e).
Proof.
  intros Hnew.
  set (l := orderByCreatedAtDesc (<[id := e]> coll)).
  assert (Hs : StronglySorted newer_first l)
    by (apply (Sorted_StronglySorted _); apply Sorted_merge_sort, _).
  assert (Hin : (id, e) ∈ l).
  { unfold l. rewrite orderByCreatedAtDesc_perm.
    apply elem_of_map_to_list. by rewrite lookup_insert_eq. }
  assert (Hmem : ∀ h, h ∈ l → h = (id, e) ∨ coll !! h.1 = Some h.2).
  { intros [k d] Hh. unfold l in Hh. rewrite orderByCreatedAtDesc_perm in Hh.
    apply elem_of_map_to_list in Hh.
    destruct (decide (k = id)) as [->|Hne].
    - rewrite lookup_insert_eq in Hh. left. congruence.
    - rewrite lookup_insert_ne in Hh by done. by right. }
  destruct l as [|h t]; [by apply elem_of_nil in Hin|].
  simpl. f_equal.
  apply elem_of_cons in Hin as [->|Hin]; [done|].
  destruct (Hmem h) as [->|Hold]; [left | done |].
  apply StronglySorted_inv in Hs as [_ Hall].
  rewrite Forall_forall in Hall. specialize (Hall _ Hin).
  apply Hnew in Hold. unfold newer_first in Hall. simpl in Hall. lia.
Qed.

Lemma getTransactions_first (s : Store) (uid : string) (n : nat) :
  uid ≠ "" → (1 ≤ n ≤ 50)%nat →
  getTransactions s (Some uid) (Some (JS.of_nat n)) None
  = Ok (page_at (orderByCreatedAtDesc (txCollection s uid)) 0 n).
Proof.
  intros Hu Hn. unfold getTransactions.
  rewrite uidOrThrow_Some by done. simpl.
  destruct (counts_spec 0 n) as (Hint & Hlimit & _); [lia..|].
  rewrite Hlimit, Hint by lia. simpl.
  rewrite <- (getTransactions_from s uid n 0 _ Hn). by rewrite drop_0.
Qed.

(** X29. A transfer made later than every entry of the two ledgers heads
    both lists of transactions: the first page of the sender, for any whole
    limit from 1 to 50, starts with the new [TRANSFER_OUT] entry, and that
    of the recipient with the new [TRANSFER_IN] entry, each with the amount
    and the other party; each page has as many entries as the limit allows
    of the ledger there was and the new entry. *)
Theorem transfer_listed_first env now s fromUid data (n : nat) :
  fromUid ≠ "" → toUid data ≠ "" → toUid data ≠ fromUid →
  PrimFloat.ltb 0 (amount data) = true →
  PrimFloat.ltb (snap_balance (wallets s !! fromUid)) (amount data) = false →
  (∀ u id d, txCollection s u !! id = Some d → (tx_createdAt d < now)%Z) →
  (1 ≤ n ≤ 50)%nat →
  ∃ s' pageOut pageIn idOut idIn out inc,
    transferFunds env now s (Some fromUid) data = (Ok "SUCCESS", s')
    ∧ getTransactions s' (Some fromUid) (Some (JS.of_nat n)) None = Ok pageOut
    ∧ items pageOut !! 0%nat = Some (idOut, out)
    ∧ tx_type out = TRANSFER_OUT ∧ tx_amount out = Some (amount data)
    ∧ tx_counterparty out = Some (toUid data)
    ∧ length (items pageOut) = (n `min` S (size (txCollection s fromUid)))%nat
    ∧ getTransactions s' (Some (toUid data)) (Some (JS.of_nat n)) None = Ok pageIn
    ∧ items pageIn !! 0%nat = Some (idIn, inc)
    ∧ tx_type inc = TRANSFER_IN ∧ tx_amount inc = Some (amount data)
    ∧ tx_counterparty inc = Some fromUid
    ∧ length (items pageIn) = (n `min` S (size (txCollection s (toUid data))))%nat.
Proof.
  intros Hu Ht Hne Hpos Hbal Hold Hn.
  destruct (transferFunds_commits env now s fromUid data Hu Ht Hne Hpos Hbal)
    as (s' & Hrun & _ & _ & _ & Hout & Hin & _).
  assert (Hpage : ∀ u id e,
    u ≠ "" → tx_createdAt e = now → txCollection s u !! id = None →
    txCollection s' u = <[id := e]> (txCollection s u) →
    items (page_at (orderByCreatedAtDesc (txCollection s' u)) 0 n) !! 0%nat
    = Some (id, e)
    ∧ length (items (page_at (orderByCreatedAtDesc (txCollection s' u)) 0 n))
      = (n `min` S (size (txCollection s u)))%nat).
  { intros u id e Hu' He Hfresh Hledger. unfold page_at. simpl.
    rewrite drop_0. split.
    - rewrite lookup_take_lt by lia. rewrite Hledger.
      apply orderByCreatedAtDesc_newest. intros k d Hk. rewrite He. by eapply Hold.
    - rewrite length_take, orderByCreatedAtDesc_length, Hledger.
      by rewrite map_size_insert_None. }
  destruct (Hpage fromUid (auto_id (txCollection s fromUid))
              (transferEntry TRANSFER_OUT (toUid data) (amount data)
                 (getBaseCurrency env) (note data) now)
              Hu eq_refl (auto_id_fresh _) Hout) as [H1 L1].
  destruct (Hpage (toUid data) (auto_id (txCollection s (toUid data)))
              (transferEntry TRANSFER_IN fromUid (amount data)
                 (getBaseCurrency env) (note data) now)
              Ht eq_refl (auto_id_fresh _) Hin) as [H2 L2].
  eexists s', _, _, _, _, _, _.
  split; [exact Hrun|].
  split; [by apply getTransactions_first|]. split; [exact H1|].
  do 3 (split; [reflexivity|]). split; [exact L1|].
  split; [by apply getTransactions_first|]. split; [exact H2|].
  do 3 (split; [reflexivity|]). exact L2.
Qed.

Lemma transfer_listed_first_witness :
  ∃ s' pageOut id out,
    transferFunds Scenario.env 5000%Z
      {| wallets := {[ "alice" := Scenario.wallet "alice" 100 ]};
         transactions :=
           {[ "alice" := {[ "t1" := transferEntry TRANSFER_IN "bob" 100 "ZAR" None
                                      1000%Z ]} ]};
         rides := ∅; businesses := ∅; orders := ∅; drivers_live := ∅ |}
      (Some "alice") {| toUid := "bob"; amount := 1; note := None |}
    = (Ok "SUCCESS", s')
    ∧ getTransactions s' (Some "alice") (Some (JS.of_nat 20)) None = Ok pageOut
    ∧ items pageOut !! 0%nat = Some (id, out)
    ∧ tx_type out = TRANSFER_OUT
    ∧ length (items pageOut) = 2%nat.
Proof.
  destruct (transfer_listed_first Scenario.env 5000%Z
              {| wallets := {[ "alice" := Scenario.wallet "alice" 100 ]};
                 transactions :=
                   {[ "alice" := {[ "t1" := transferEntry TRANSFER_IN "bob" 100 "ZAR"
                                              None 1000%Z ]} ]};
                 rides := ∅; businesses := ∅; orders := ∅; drivers_live := ∅ |}
              "alice" {| toUid := "bob"; amount := 1; note := None |} 20)
    as (s' & pageOut & pageIn & idOut & idIn & out & inc & Hrun & Hget & H0 & Hty
        & _ & _ & Hlen & _);
    [done | done | done | reflexivity | by vm_compute | | lia |].
  - intros u id d. unfold txCollection. simpl.
    destruct (decide (u = "alice")) as [->|Hne].
    + rewrite lookup_singleton_eq. simpl.
      destruct (decide (id = "t1")) as [->|Hid].
      * rewrite lookup_singleton_eq. by intros [= <-].
      * by rewrite lookup_singleton_ne.
    + by rewrite lookup_singleton_ne.
  - exists s', pageOut, idOut, out. split; [exact Hrun|]. split; [exact Hget|].
    split; [exact H0|]. split; [exact Hty|]. by rewrite Hlen.
Defined.
